(** * backup_phone.py: reconciliation, verification and verified pull

    A shallow embedding of [backup_phone.py], the tool that copies a
    directory tree from an android device to the local machine through
    [adb], and the properties of its reconciliation, verification and
    pull logic.

    Conventions of the embedding:
    - a relative path is a [string] in linux form, exactly as in the code;
    - a python [set] of paths is a [gset string]; [list(s)] of a set is
      [elements s] (python leaves the order open, no property below
      depends on it) and [set(l)] of a list is [list_to_set l];
    - a python dict from paths to values is a [gmap string _];
    - the device behind [adb] is a record of answers ([device]);
    - the local destination directory is a finite map from relative
      paths to nodes ([gmap string node]);
    - the program runs in a state-and-exception monad [M]: a raised
      exception keeps the state reached so far. *)

From Stdlib Require Import ZArith Ascii.
From stdpp Require Import base option list gmap sets strings sorting fin_maps pretty.

Local Open Scope Z_scope.

(** ** Utility functions *)

Module Str.

(** [s.replace(a, b)] for one-character [a] and [b]. *)
Fixpoint replace (a b : ascii) (s : string) : string :=
  match s with
  | EmptyString => EmptyString
  | String c s' => String (if Ascii.eqb c a then b else c) (replace a b s')
  end.

(** [sep.join(l)]. *)
Fixpoint join (sep : string) (l : list string) : string :=
  match l with
  | [] => ""
  | [x] => x
  | x :: l' => x +:+ sep +:+ join sep l'
  end.

(** [s.lower()] on the ASCII letters. *)
Definition lower_ascii (c : ascii) : ascii :=
  let n := N_of_ascii c in
  if ((65 <=? n) && (n <=? 90))%N then ascii_of_N (n + 32) else c.

Fixpoint lower (s : string) : string :=
  match s with
  | EmptyString => EmptyString
  | String c s' => String (lower_ascii c) (lower s')
  end.

(** [posixpath.basename]: the text after the last [/] ([cur] is the
    text read since the last [/], in reverse). *)
Fixpoint basename_go (cur : string) (s : string) : string :=
  match s with
  | EmptyString => String.rev cur
  | String c s' =>
      if Ascii.eqb c "/" then basename_go "" s' else basename_go (String c cur) s'
  end.
Definition basename (p : string) : string := basename_go "" p.

(** [sorted(l)] on strings: python orders [str] by code point. *)
Definition sorted (l : list string) : list string := merge_sort String.le l.

Definition newline_tab : string := String "010" (String "009" "").

End Str.

(** [os.path.sep] of the local machine (a POSIX host). *)
Definition os_path_sep : ascii := "/".

Definition linux_path_build (args : list string) : string := Str.join "/" args.

Definition filename2osformat (f : string) : string := Str.replace "/" os_path_sep f.

Definition filename2linuxformat (f : string) : string := Str.replace os_path_sep "/" f.

(** [ask_user_yes_no]: the answer typed by the user, lower-cased, has to
    match [^y(es)?$]. *)
Definition is_yes (answer : string) : bool :=
  let a := Str.lower answer in
  bool_decide (a = "y") || bool_decide (a = "yes").

(** ** Exceptions *)

Inductive exn :=
| TypeError (msg : string)
| OSError (path : string)
| KeyError (key : string)
| EOFError
| CalledProcessError (returncode : Z).

#[global] Instance exn_eq_dec : EqDecision exn.
Proof. solve_decision. Defined.

(** ** Reconciliation: the set algebra of [get_missing_and_existing_files]

    [compare_listings] is the body of [get_missing_and_existing_files]
    from the two listings on: [src] is the result of
    [get_src_all_files_and_dirs], [dst] that of
    [get_dst_all_files_and_dirs]. *)

Definition bad_type_message (bad_type_items : gset string) : string :=
  "The following files/dirs should be dirs/files:" +:+ Str.newline_tab
    +:+ Str.join Str.newline_tab (Str.sorted (elements bad_type_items)).

Record listing := Listing { l_files : list string; l_dirs : list string }.

(** missing files, existing files, missing directories, existing directories *)
Definition reconciled : Type := list string * list string * list string * list string.

Definition compare_listings (src dst : listing) : exn + reconciled :=
  let src_files : gset string := list_to_set (l_files src) in
  let src_dirs : gset string := list_to_set (l_dirs src) in
  let dst_files : gset string := list_to_set (filename2linuxformat <$> l_files dst) in
  let dst_dirs : gset string := list_to_set (filename2linuxformat <$> l_dirs dst) in
  let missing_files := elements (src_files ∖ dst_files) in
  let existing_files := elements (src_files ∩ dst_files) in
  let missing_dirs := elements (src_dirs ∖ dst_dirs) in
  let existing_dirs := elements (src_dirs ∩ dst_dirs) in
  let bad_type_items : gset string :=
    (list_to_set existing_files ∩ list_to_set missing_dirs)
    ∪ (list_to_set missing_files ∩ list_to_set existing_dirs) in
  if decide (bad_type_items ≠ ∅)
  then inl (TypeError (bad_type_message bad_type_items))
  else inr (missing_files, existing_files, missing_dirs, existing_dirs).

(** The snapshots the listings stand for. *)
Definition remote_files (src : listing) : gset string := list_to_set (l_files src).
Definition remote_dirs (src : listing) : gset string := list_to_set (l_dirs src).
Definition local_files (dst : listing) : gset string :=
  list_to_set (filename2linuxformat <$> l_files dst).
Definition local_dirs (dst : listing) : gset string :=
  list_to_set (filename2linuxformat <$> l_dirs dst).

(** ** The local destination directory and the device *)

Inductive node :=
| File (size : Z) (sha1 : string)
| Dir.

#[global] Instance node_eq_dec : EqDecision node.
Proof. solve_decision. Defined.

(** What the program prints, asks and sends to [adb pull], in order. *)
Inductive event :=
| PrintError (msg : string)
| PrintMissingFiles (shown : list string)
| PrintMissingDirs (shown : list string)
| PrintChecking
| PrintFaulty (shown : list string)
| PrintDeleting
| PrintOverriding
| PrintEstimate (total_missing_size : Z)
| PrintPullError (f : string) (pull_status : string) (deleting : bool)
| PrintResult (num_of_successful_pulls num_of_failed_pulls : Z) (failed_files : list string)
| Prompt (msg : string)
| AdbPull (f : string).

#[global] Instance event_eq_dec : EqDecision event.
Proof. solve_decision. Defined.

(** The answers of the device to the commands sent through [run]: the
    path type of the source, the two [find] listings, [stat], [sha1sum],
    what [adb pull] of a file leaves in the destination directory, and
    the status [adb pull] exits with. The [adb shell] commands are taken
    to exit with status 0: each of them ends in a command that
    succeeds. *)
Record device := Device {
  dev_connected : bool;
  dev_path_type : string;
  dev_listing : listing;
  dev_file_size : string → Z;
  dev_sha1sum : string → string;
  dev_pull : string → gmap string node → gmap string node;
  dev_pull_status : string → gmap string node → Z
}.

Record arguments := Args {
  src_path : string;
  adb_path_is_file : bool;
  dst_path_is_dir : bool;
  override : bool;
  verify_flag : bool;
  auto_flag : bool;
  yes : bool
}.

Record state := State {
  fs : gmap string node;
  stdin : list string;
  out : list event
}.

(** ** The monad of the program *)

Definition M (A : Type) : Type := state → (exn + A) * state.

#[global] Instance M_ret : MRet M := λ A a st, (inr a, st).
#[global] Instance M_bind : MBind M := λ A B f m st,
  match m st with
  | (inl e, st') => (inl e, st')
  | (inr a, st') => f a st'
  end.

Definition raise {A} (e : exn) : M A := λ st, (inl e, st).
Definition get_fs : M (gmap string node) := λ st, (inr (fs st), st).
Definition set_fs (m : gmap string node) : M unit :=
  λ st, (inr (), State m (stdin st) (out st)).
Definition emit (e : event) : M unit :=
  λ st, (inr (), State (fs st) (stdin st) (out st ++ [e])).
Definition lift {A} (r : exn + A) : M A := λ st, (r, st).

(** [for x in l: body(x)] *)
Fixpoint for_each {A} (l : list A) (body : A → M unit) : M unit :=
  match l with
  | [] => mret ()
  | x :: l' => body x ;; for_each l' body
  end.

(** [{f: g(f) for f in l}] *)
Fixpoint dict_of {V} (l : list string) (g : string → M V) (d : gmap string V)
  : M (gmap string V) :=
  match l with
  | [] => mret d
  | f :: l' => v ← g f; dict_of l' g (<[f := v]> d)
  end.

(** [d[f]] *)
Definition subscript {V} (d : gmap string V) (f : string) : M V :=
  match d !! f with
  | Some v => mret v
  | None => raise (KeyError f)
  end.

(** [[f for f in l if cond(f)]] *)
Fixpoint select (l : list string) (cond : string → M bool) : M (list string) :=
  match l with
  | [] => mret []
  | f :: l' =>
      b ← cond f;
      r ← select l' cond;
      mret (if b : bool then f :: r else r)
  end.

Definition print_error (msg : string) : M unit := emit (PrintError msg).

(** [input(prompt)] reads the next line of the standard input. *)
Definition ask_user_yes_no (msg : string) : M bool := λ st,
  match stdin st with
  | [] => (inl EOFError, State (fs st) [] (out st ++ [Prompt msg]))
  | answer :: rest => (inr (is_yes answer), State (fs st) rest (out st ++ [Prompt msg]))
  end.

Definition truncate_list (lst : list string) : list string :=
  if decide (20 < length lst)%nat
  then take 20 lst ++ ["... (total: " +:+ pretty (length lst) +:+ ")"]
  else lst.

(** ** Local operations *)

Module os.
Definition exists_ (m : gmap string node) (p : string) : bool :=
  bool_decide (is_Some (m !! p)).
Definition isfile (m : gmap string node) (p : string) : bool :=
  match m !! p with Some (File _ _) => true | _ => false end.
Definition isdir (m : gmap string node) (p : string) : bool :=
  match m !! p with Some Dir => true | _ => false end.

(** [os.path.getsize]; the program asks it of regular files only. *)
Definition getsize (p : string) : M Z :=
  m ← get_fs;
  match m !! p with
  | Some (File size _) => mret size
  | _ => raise (OSError p)
  end.

(** [os.remove]: fails on a missing path and on a directory. *)
Definition remove (p : string) : M unit :=
  m ← get_fs;
  match m !! p with
  | Some (File _ _) => set_fs (delete p m)
  | _ => raise (OSError p)
  end.

(** The proper prefixes of [p] that end just before a [/]: the
    intermediate directories of [p], outermost first ([cur] is the text
    read so far, in reverse). *)
Fixpoint parents_go (cur : string) (p : string) : list string :=
  match p with
  | EmptyString => []
  | String c p' =>
      if Ascii.eqb c "/"
      then String.rev cur :: parents_go (String c cur) p'
      else parents_go (String c cur) p'
  end.
Definition parents (p : string) : list string := parents_go "" p.

(** [os.mkdir] that tolerates an existing directory, as [makedirs]
    with [exist_ok=True] treats each path it meets. *)
Definition mkdir_exist_ok (p : string) : M unit :=
  m ← get_fs;
  match m !! p with
  | None => set_fs (<[p := Dir]> m)
  | Some Dir => mret ()
  | Some (File _ _) => raise (OSError p)
  end.

(** [os.makedirs(p, exist_ok=True)] *)
Definition makedirs (p : string) : M unit :=
  for_each (parents p ++ [p]) mkdir_exist_ok.
End os.

(** [sha1sum(filename)] of a local file. *)
Definition sha1sum (filename : string) : M string :=
  m ← get_fs;
  match m !! filename with
  | Some (File _ sha1) => mret sha1
  | _ => raise (OSError filename)
  end.

Definition get_dst_sha1sum (f : string) : M string :=
  let full_path := filename2osformat f in
  sha1sum full_path.

Definition create_all_directories (dirs : list string) : M unit :=
  let dirs := Str.sorted dirs in
  for_each dirs (λ d,
    let full_path := filename2osformat d in
    m ← get_fs;
    if negb (os.exists_ m full_path) then os.makedirs full_path
    else if negb (os.isdir m full_path) then
      raise (TypeError ("A path to a need-to-be directory exists as a file. Aborting..."
                          +:+ String "010" full_path))
    else mret ()).

Definition delete_files (files : list string) : M unit :=
  for_each files (λ f, os.remove (filename2osformat f)).

(** The recursive listing of the destination directory, in the local
    path format: every path of the map, files and directories apart. *)
Definition get_dst_all_files_and_dirs (m : gmap string node) : listing :=
  let items := map_to_list m in
  Listing (filename2osformat <$> (filter (λ kv, kv.2 ≠ Dir) items).*1)
          (filename2osformat <$> (filter (λ kv, kv.2 = Dir) items).*1).

(** ** Device operations *)

Definition get_src_path_type (dev : device) : M string := mret (dev_path_type dev).
Definition get_src_all_files_and_dirs (dev : device) : M listing := mret (dev_listing dev).
Definition get_src_file_size (dev : device) (f : string) : M Z := mret (dev_file_size dev f).
Definition get_src_sha1sum (dev : device) (f : string) : M string := mret (dev_sha1sum dev f).

(** [run(cmd)] goes through [subprocess.check_output], which raises
    when the command exits with a status other than 0. *)
Definition check_output (returncode : Z) : M unit :=
  if decide (returncode ≠ 0) then raise (CalledProcessError returncode) else mret ().

(** [run] of the [adb pull] command: whatever the command wrote stays in
    the destination when it fails. *)
Definition run_adb_pull (dev : device) (f : string) : M unit :=
  emit (AdbPull f) ;;
  m ← get_fs;
  set_fs (dev_pull dev f m) ;;
  check_output (dev_pull_status dev f m).

Definition pull_file (dev : device) (f : string) : M string :=
  let full_dst_path := filename2osformat f in
  run_adb_pull dev f ;;
  m ← get_fs;
  if negb (os.isfile m full_dst_path) then
    if os.exists_ m full_dst_path
    then raise (TypeError "exceptions must derive from BaseException")
    else mret "not_pulled"
  else
    src_size ← get_src_file_size dev f;
    dst_size ← os.getsize full_dst_path;
    if decide (src_size ≠ dst_size) then mret "wrong_size"
    else
      src_sha1 ← get_src_sha1sum dev f;
      dst_sha1 ← get_dst_sha1sum f;
      if decide (src_sha1 ≠ dst_sha1) then mret "wrong_hash"
      else mret "success".

(** ** Comparison *)

Definition get_missing_and_existing_files (dev : device) : M reconciled :=
  src ← get_src_all_files_and_dirs dev;
  m ← get_fs;
  lift (compare_listings src (get_dst_all_files_and_dirs m)).

Definition verify (dev : device) (existing_files : list string) : M (list string) :=
  src_sha1sum ← dict_of existing_files (get_src_sha1sum dev) ∅;
  dst_sha1sums ← dict_of existing_files get_dst_sha1sum ∅;
  src_file_sizes ← dict_of existing_files (get_src_file_size dev) ∅;
  dst_file_sizes ← dict_of existing_files (λ f, os.getsize (filename2osformat f)) ∅;
  select existing_files (λ f,
    s1 ← subscript src_sha1sum f;
    s2 ← subscript dst_sha1sums f;
    if decide (s1 ≠ s2) then mret true
    else
      z1 ← subscript src_file_sizes f;
      z2 ← subscript dst_file_sizes f;
      mret (bool_decide (z1 ≠ z2))).

(** ** [main] *)

(** The source is a single file (the [src_type == 'file'] branch). *)
Definition single_file (filename : string) : M reconciled :=
  let local_file_path := filename2osformat filename in
  m ← get_fs;
  if os.exists_ m local_file_path then
    if negb (os.isfile m local_file_path) then
      raise (TypeError (local_file_path +:+ " should be a file, but it is a directory. Aborting..."))
    else mret ([], [filename], [], [])
  else mret ([filename], [], [], []).

Definition print_error_pull (f pull_status : string) : M unit :=
  emit (PrintPullError f pull_status (bool_decide (pull_status ≠ "not_pulled"))).

(** The loop over the missing files: the failed files so far are
    threaded through. *)
Fixpoint pull_loop (dev : device) (src_file_sizes : gmap string Z)
    (files : list string) (failed_files : list string) : M (list string) :=
  match files with
  | [] => mret failed_files
  | f :: files' =>
      pull_status ← pull_file dev f;
      failed_files ←
        (if decide (pull_status ≠ "success") then
           print_error_pull f pull_status ;;
           (if decide (pull_status ≠ "not_pulled") then delete_files [f] else mret ()) ;;
           mret (failed_files ++ [f])
         else mret failed_files);
      _ ← subscript src_file_sizes f;
      pull_loop dev src_file_sizes files' failed_files
  end.

(** [main] from the override question on. *)
Definition override_and_pull (args : arguments) (dev : device)
    (missing_files existing_files : list string) : M unit :=
  missing_files ←
    (if override args then
       confirmed ← (if yes args then mret true else ask_user_yes_no "Confirm overriding.");
       if confirmed : bool
       then emit PrintOverriding ;; mret (missing_files ++ existing_files)
       else mret missing_files
     else mret missing_files);
  failed_files ←
    (if decide (missing_files ≠ []) then
       src_file_sizes ← dict_of missing_files (get_src_file_size dev) ∅;
       let total_missing_size := map_fold (λ _ v acc, v + acc) 0 src_file_sizes in
       emit (PrintEstimate total_missing_size) ;;
       pull_loop dev src_file_sizes missing_files []
     else mret []);
  let num_of_failed_pulls := Z.of_nat (length failed_files) in
  let num_of_successful_pulls := Z.of_nat (length missing_files) - num_of_failed_pulls in
  emit (PrintResult num_of_successful_pulls num_of_failed_pulls failed_files).

(** The verification block of [main]: report the faulty files and
    delete them once the deletion is approved. *)
Definition verify_and_delete (args : arguments) (dev : device)
    (existing_files : list string) : M (list string) :=
  emit PrintChecking ;;
  bad_files ← verify dev existing_files;
  emit (PrintFaulty (truncate_list bad_files)) ;;
  confirmed ←
    (if decide (bad_files ≠ []) then
       if yes args then mret true else ask_user_yes_no "Delete files?"
     else mret false);
  (if confirmed : bool
   then emit PrintDeleting ;; delete_files bad_files
   else mret ()) ;;
  mret bad_files.

(** [main] from the four lists on. *)
Definition main_from_lists (args : arguments) (dev : device) (lists : reconciled) : M unit :=
  let '(missing_files, existing_files, missing_dirs, existing_dirs) := lists in
  emit (PrintMissingFiles (truncate_list missing_files)) ;;
  emit (PrintMissingDirs (truncate_list missing_dirs)) ;;
  create_all_directories missing_dirs ;;
  if verify_flag args || auto_flag args then
    bad_files ← verify_and_delete args dev existing_files;
    let missing_files := missing_files ++ bad_files in
    let existing_files :=
      elements ((list_to_set existing_files : gset string) ∖ list_to_set bad_files) in
    if verify_flag args then mret ()
    else override_and_pull args dev missing_files existing_files
  else override_and_pull args dev missing_files existing_files.

Definition main (args : arguments) (dev : device) : M unit :=
  if negb (adb_path_is_file args) then print_error "Bad ADB path."
  else if negb (dst_path_is_dir args) then print_error "Bad destination path."
  else if negb (dev_connected dev) then print_error "Phone not connected."
  else
    src_type ← get_src_path_type dev;
    if decide (src_type = "none") then print_error "Source path on android doesn't exist"
    else
      lists ← (if decide (src_type = "file")
               then single_file (Str.basename (src_path args))
               else get_missing_and_existing_files dev);
      main_from_lists args dev lists.

(** ** The snapshots of the specification

    [badTypeItems] is written from the wording of the specification, to
    be compared with what [compare_listings] computes. *)

Definition missingFiles (R L : listing) : gset string := remote_files R ∖ local_files L.
Definition existingFiles (R L : listing) : gset string := remote_files R ∩ local_files L.
Definition missingDirs (R L : listing) : gset string := remote_dirs R ∖ local_dirs L.
Definition existingDirs (R L : listing) : gset string := remote_dirs R ∩ local_dirs L.
Definition badTypeItems (R L : listing) : gset string :=
  (existingFiles R L ∩ missingDirs R L) ∪ (missingFiles R L ∩ existingDirs R L).

(** ** A scene to run the program on

    The device holds [dirA/f1] (100 bytes, digest D1) and [f2] (50 bytes,
    digest D2), and [adb pull] copies a file as it is on the device. *)

Definition remote_tree : gmap string node :=
  {[ "dirA" := Dir; "dirA/f1" := File 100 "D1"; "f2" := File 50 "D2" ]}.

Definition faithful_pull (f : string) (m : gmap string node) : gmap string node :=
  match remote_tree !! f with
  | Some n => <[f := n]> m
  | None => m
  end.

Definition phone : device :=
  Device true "directory" (Listing ["dirA/f1"; "f2"] ["dirA"])
    (λ f, match remote_tree !! f with Some (File size _) => size | _ => 0 end)
    (λ f, match remote_tree !! f with Some (File _ sha1) => sha1 | _ => "" end)
    faithful_pull (λ _ _, 0).

(** A destination whose copy of [f2] has the wrong digest. *)
Definition damaged : gmap string node := {[ "f2" := File 50 "BAD" ]}.

Definition run_args (o v a y : bool) : arguments := Args "/sdcard/backup" true true o v a y.

(** A device whose source directory holds the one file [a], and an
    [adb pull] that cannot write it. *)
Definition phone_a : device :=
  Device true "directory" (Listing ["a"] []) (λ _, 10) (λ _, "D1") (λ _ m, m) (λ _ _, 0).

(** A destination in which [a] is a directory. *)
Definition dir_a : gmap string node := {[ "a" := Dir ]}.

(** The same device when [a] cannot be read: [adb pull] writes nothing
    and exits with status 1. *)
Definition phone_unreadable : device :=
  Device true "directory" (Listing ["a"] []) (λ _, 10) (λ _, "D1") (λ _ m, m) (λ _ _, 1).

(** The transfer of [f] is classified [not_pulled] when no local file is
    at its path afterwards. *)
Definition not_pulled_when_no_file (dev : device) (f : string) (st : state) : Prop :=
  os.isfile (fs (pull_file dev f st).2) f = false →
  (pull_file dev f st).1 = inr "not_pulled".

(** The destination keeps its files through a run. *)
Definition keeps_files (args : arguments) (dev : device) (st : state) : Prop :=
  ∀ p size sha1, fs st !! p = Some (File size sha1) →
                 fs (main args dev st).2 !! p = Some (File size sha1).

(** ** Vocabulary of the properties *)

(** A computation that only reads: it returns in the state it started in. *)
Definition readonly {A} (m : M A) : Prop := ∀ st, (m st).2 = st.

(** A faulty file: a local file whose digest or size is not the one the
    device reports. *)
Definition faulty (dev : device) (m : gmap string node) (f : string) : Prop :=
  ∃ size sha1, m !! f = Some (File size sha1)
               ∧ (dev_sha1sum dev f ≠ sha1 ∨ dev_file_size dev f ≠ size).

Definition faultyb (dev : device) (m : gmap string node) (f : string) : bool :=
  match m !! f with
  | Some (File size sha1) =>
      bool_decide (dev_sha1sum dev f ≠ sha1) || bool_decide (dev_file_size dev f ≠ size)
  | _ => false
  end.

Definition local_sha1 (m : gmap string node) (f : string) : string :=
  match m !! f with Some (File _ sha1) => sha1 | _ => "" end.
Definition local_size (m : gmap string node) (f : string) : Z :=
  match m !! f with Some (File size _) => size | _ => 0 end.

Definition dict_pure {V} (l : list string) (h : string → V) (d : gmap string V)
  : gmap string V :=
  foldl (λ d f, <[f := h f]> d) d l.

(** The destination after directories were made: a path is as before,
    or it was absent and is a directory now. *)
Definition grows (m m' : gmap string node) : Prop :=
  ∀ p, m' !! p = m !! p ∨ (m !! p = None ∧ m' !! p = Some Dir).

Definition dirs_only (st st' : state) : Prop :=
  grows (fs st) (fs st') ∧ stdin st' = stdin st ∧ out st' = out st.

(** The destination after files of [files] were deleted: a path is as
    before, or it was a file of [files] and is absent now. *)
Definition shrinks (files : list string) (m m' : gmap string node) : Prop :=
  ∀ p, m' !! p = m !! p
       ∨ (p ∈ files ∧ os.isfile m p = true ∧ m' !! p = None).

(** A computation that sends no [adb pull]. *)
Definition no_adb_pull {A} (c : M A) : Prop :=
  ∀ st r st', c st = (r, st') → ∀ f, AdbPull f ∈ out st' → AdbPull f ∈ out st.

(** The same, with the new directories all among [paths]. *)
Definition grows_in (paths : list string) (m m' : gmap string node) : Prop :=
  ∀ p, m' !! p = m !! p ∨ (p ∈ paths ∧ m !! p = None ∧ m' !! p = Some Dir).

(** A destination that is a directory tree: whatever is at a path, the
    intermediate directories of the path are directories. *)
Definition tree (m : gmap string node) : Prop :=
  ∀ p q, is_Some (m !! p) → q ∈ os.parents p → m !! q = Some Dir.


(** The four lists [main] works on. *)
Definition lists_of (args : arguments) (dev : device) : M reconciled :=
  if decide (dev_path_type dev = "file")
  then single_file (Str.basename (src_path args))
  else get_missing_and_existing_files dev.

(** The deletion of the faulty files is approved: by [--yes], or by a
    yes typed at the prompt. *)
Definition approved (args : arguments) (st : state) : bool :=
  yes args || match stdin st with answer :: _ => is_yes answer | [] => false end.

(** The state in which [main] starts to make the missing directories. *)
Definition listed (mf md : list string) (st : state) : state :=
  State (fs st) (stdin st)
        (out st ++ [PrintMissingFiles (truncate_list mf); PrintMissingDirs (truncate_list md)]).

(** ** Vocabulary of the further properties *)

(** [c in s] for a character [c]. *)
Fixpoint occurs (c : ascii) (s : string) : bool :=
  match s with
  | EmptyString => false
  | String c' s' => Ascii.eqb c' c || occurs c s'
  end.

(** [filename2osformat] and [filename2linuxformat] on a host whose
    [os.path.sep] is [sep]. *)
Definition filename2osformat_on (sep : ascii) (f : string) : string :=
  Str.replace "/" sep f.

Definition filename2linuxformat_on (sep : ascii) (f : string) : string :=
  Str.replace sep "/" f.

(** The answers that [ask_user_yes_no] takes for a yes. *)
Definition yes_answers : list string :=
  ["y"; "Y"; "yes"; "yeS"; "yEs"; "yES"; "Yes"; "YeS"; "YEs"; "YES"].


(** An [adb pull] that writes nothing but the path of the file pulled. *)
Definition local_pull (dev : device) : Prop :=
  ∀ f m p, p ≠ f → dev_pull dev f m !! p = m !! p.

(** An [adb pull] that leaves the file in the destination as the device
    describes it. *)
Definition faithful (dev : device) : Prop :=
  ∀ f m, dev_pull dev f m = <[f := File (dev_file_size dev f) (dev_sha1sum dev f)]> m.

(** The arguments without [--override]. *)
Definition no_override (args : arguments) : arguments :=
  Args (src_path args) (adb_path_is_file args) (dst_path_is_dir args) false
       (verify_flag args) (auto_flag args) (yes args).

(** The scene's device with an [adb pull] that writes the file whatever
    was at its path. *)
Definition mirror : device :=
  Device true "directory" (Listing ["dirA/f1"; "f2"] ["dirA"])
    (dev_file_size phone) (dev_sha1sum phone)
    (λ f m, <[f := File (dev_file_size phone f) (dev_sha1sum phone f)]> m) (λ _ _, 0).

(** ** The recursive listing of the destination

    [get_dst_all_files_and_dirs] as the source writes it: the entries of
    one directory, then a loop over [dirs] that lists each directory
    again from the file system and extends [files] and [dirs], the list
    it is looping over. A directory is named by its path below the
    destination directory, the empty path for the destination directory
    itself. The recursion of the source is bounded here by [fuel]. *)

Module Walk.

(** [os.path.join] of a directory path and a relative path. The names
    [os.listdir] returns hold no [/] and are not empty, so the other
    cases of [join] do not arise. *)
Definition path_join (a b : string) : string :=
  if decide (a = "") then b else a +:+ String "/" b.

Fixpoint strip_prefix (p s : string) : option string :=
  match p, s with
  | EmptyString, _ => Some s
  | String a p', String b s' => if Ascii.eqb a b then strip_prefix p' s' else None
  | String _ _, EmptyString => None
  end.

(** A name of a directory entry: not empty and without [/]. *)
Definition is_name (n : string) : bool :=
  negb (bool_decide (n = "")) && negb (occurs "/" n).

(** The name under which the path [k] lies directly in the directory [p],
    if it does. *)
Definition child_name (p k : string) : option string :=
  match strip_prefix (path_join p "") k with
  | Some n => if is_name n then Some n else None
  | None => None
  end.

(** [os.listdir]: the names of the entries of the directory [p]. *)
Definition listdir (m : gmap string node) (p : string) : list string :=
  omap (child_name p) (map_to_list m).*1.

(** [for d in dirs: ...]: [i] is the position the loop has reached in
    [dirs], which grows while the loop runs; [rec] is the recursive
    call. *)
Fixpoint walk_dirs (rec : string → option (list string * list string)) (fuel : nat)
    (dst_path : string) (i : nat) (files dirs : list string)
  : option (list string * list string) :=
  match fuel with
  | O => None
  | S fuel' =>
      match dirs !! i with
      | None => Some (files, dirs)
      | Some d =>
          match rec (path_join dst_path (filename2osformat d)) with
          | None => None
          | Some (new_files, new_dirs) =>
              walk_dirs rec fuel' dst_path (S i)
                (files ++ ((λ nf, path_join d (filename2osformat nf)) <$> new_files))
                (dirs ++ ((λ nf, path_join d (filename2osformat nf)) <$> new_dirs))
          end
      end
  end.

Definition immediate_files (m : gmap string node) (dst_path : string) : list string :=
  filter (λ f, os.isfile m (path_join dst_path (filename2osformat f)) = true)
         (listdir m dst_path).

Definition immediate_dirs (m : gmap string node) (dst_path : string) : list string :=
  filter (λ f, os.isdir m (path_join dst_path (filename2osformat f)) = true)
         (listdir m dst_path).

Fixpoint get_dst_all_files_and_dirs (fuel : nat) (m : gmap string node) (dst_path : string)
  : option (list string * list string) :=
  match fuel with
  | O => None
  | S fuel' =>
      let files := immediate_files m dst_path in
      let dirs := immediate_dirs m dst_path in
      walk_dirs (get_dst_all_files_and_dirs fuel' m) fuel' dst_path 0 files dirs
  end.

End Walk.

(** The loop of [Walk.get_dst_all_files_and_dirs] as a relation: from
    position [i] with the lists [files] and [dirs], the loop ends with the
    pair of lists [r]. *)
Inductive walks (m : gmap string node)
  : string → nat → list string → list string → list string * list string → Prop :=
| walks_done p i files dirs :
    dirs !! i = None → walks m p i files dirs (files, dirs)
| walks_step p i files dirs d new_files new_dirs r :
    dirs !! i = Some d →
    walks m (Walk.path_join p d) 0
          (Walk.immediate_files m (Walk.path_join p d))
          (Walk.immediate_dirs m (Walk.path_join p d)) (new_files, new_dirs) →
    walks m p (S i) (files ++ (Walk.path_join d <$> new_files))
          (dirs ++ (Walk.path_join d <$> new_dirs)) r →
    walks m p i files dirs r.

(** The listing of the directory [p] is [r]. *)
Definition lists (m : gmap string node) (p : string) (r : list string * list string) : Prop :=
  walks m p 0 (Walk.immediate_files m p) (Walk.immediate_dirs m p) r.

(** A relative path without empty parts: names put together with [/]. *)
Inductive clean : string → Prop :=
| clean_name n : Walk.is_name n = true → clean n
| clean_cons n rest : Walk.is_name n = true → clean rest → clean (n +:+ String "/" rest).

(** The length of the longest path of the destination. *)
Definition longest (m : gmap string node) : nat :=
  max_list (String.length <$> (map_to_list m).*1).

(** A relative path that names a file, or a directory, of the
    destination below the directory [p]. *)
Definition good_file (m : gmap string node) (p f : string) : Prop :=
  f ≠ "" ∧ os.isfile m (Walk.path_join p f) = true.

Definition good_dir (m : gmap string node) (p d : string) : Prop :=
  d ≠ "" ∧ m !! Walk.path_join p d = Some Dir.

(** A directory of the work list of the loop in [p] with fewer than [k]
    levels of the destination below it. *)
Definition pending (m : gmap string node) (p : string) (k : nat) (d : string) : Prop :=
  good_dir m p d ∧ (longest m - String.length (Walk.path_join p d) < k)%nat.

(** A destination with a file two directories deep. *)
Definition nested : gmap string node :=
  {[ "a" := Dir; "a/b" := Dir; "a/b/x" := File 1 "D1"; "t" := File 2 "D2" ]}.

(** * Properties *)

(** ** Strings and paths *)

Lemma replace_same (a : ascii) (s : string) : Str.replace a a s = s.
Proof.
  induction s as [|c s IH]; simpl; [reflexivity|].
  rewrite IH. destruct (Ascii.eqb_spec c a); congruence.
Qed.

Lemma filename2osformat_id (f : string) : filename2osformat f = f.
Proof. apply replace_same. Qed.

Lemma filename2linuxformat_id (f : string) : filename2linuxformat f = f.
Proof. apply replace_same. Qed.

Lemma sorted_perm (l : list string) : Str.sorted l ≡ₚ l.
Proof. apply merge_sort_Permutation. Qed.

Lemma elem_of_sorted (l : list string) (x : string) : x ∈ Str.sorted l ↔ x ∈ l.
Proof. by rewrite sorted_perm. Qed.

(** ** Reconciliation *)

Lemma compare_listings_eq (src dst : listing) :
  compare_listings src dst =
    if decide (badTypeItems src dst ≠ ∅)
    then inl (TypeError (bad_type_message (badTypeItems src dst)))
    else inr (elements (missingFiles src dst), elements (existingFiles src dst),
              elements (missingDirs src dst), elements (existingDirs src dst)).
Proof.
  unfold compare_listings. rewrite !list_to_set_elements_L. reflexivity.
Qed.

(** The check of [compare_listings] can only fire on a path that the
    device lists both as a file and as a directory. *)
Lemma badTypeItems_remote (R L : listing) (p : string) :
  p ∈ badTypeItems R L → p ∈ remote_files R ∧ p ∈ remote_dirs R.
Proof.
  unfold badTypeItems, existingFiles, missingDirs, missingFiles, existingDirs.
  rewrite elem_of_union, !elem_of_intersection, !elem_of_difference. tauto.
Qed.

Lemma compare_listings_returns (R L : listing) :
  remote_files R ## remote_dirs R →
  compare_listings R L
  = inr (elements (missingFiles R L), elements (existingFiles R L),
         elements (missingDirs R L), elements (existingDirs R L)).
Proof.
  intros Hdisj. rewrite compare_listings_eq.
  destruct (decide (badTypeItems R L ≠ ∅)) as [Hne|]; [|reflexivity].
  exfalso. apply Hne. apply set_eq. intros p. rewrite elem_of_empty.
  split; [|done]. intros Hp. apply badTypeItems_remote in Hp as [Hf Hd].
  exact (Hdisj p Hf Hd).
Qed.

Lemma reconcile_lists (R L : listing) (mf ef md ed : list string) :
  compare_listings R L = inr (mf, ef, md, ed) →
  (list_to_set ef : gset string) = remote_files R ∩ local_files L
  ∧ (list_to_set md : gset string) = remote_dirs R ∖ local_dirs L
  ∧ NoDup ef.
Proof.
  rewrite compare_listings_eq.
  destruct (decide (badTypeItems R L ≠ ∅)); [discriminate|].
  intros [= <- <- <- <-]. rewrite !list_to_set_elements_L.
  split; [done|]. split; [done|]. apply NoDup_elements.
Qed.

(** C3: whenever [get_missing_and_existing_files] returns its four lists,
    the missing files are the remote files that are not local files, the
    existing files are the remote files that are local files too, and the
    same for directories; so missing and existing files together are the
    remote files and have no path in common, and the same for
    directories. *)
Theorem reconcile_partition (R L : listing) (mf ef md ed : list string) :
  compare_listings R L = inr (mf, ef, md, ed) →
  (list_to_set mf : gset string) = remote_files R ∖ local_files L
  ∧ (list_to_set ef : gset string) = remote_files R ∩ local_files L
  ∧ (list_to_set md : gset string) = remote_dirs R ∖ local_dirs L
  ∧ (list_to_set ed : gset string) = remote_dirs R ∩ local_dirs L
  ∧ (list_to_set mf : gset string) ∪ list_to_set ef = remote_files R
  ∧ (list_to_set mf : gset string) ∩ list_to_set ef = ∅
  ∧ (list_to_set md : gset string) ∪ list_to_set ed = remote_dirs R
  ∧ (list_to_set md : gset string) ∩ list_to_set ed = ∅
  ∧ NoDup mf ∧ NoDup ef ∧ NoDup md ∧ NoDup ed.
Proof.
  rewrite compare_listings_eq.
  destruct (decide (badTypeItems R L ≠ ∅)); [discriminate|].
  intros [= <- <- <- <-]. rewrite !list_to_set_elements_L.
  unfold missingFiles, existingFiles, missingDirs, existingDirs.
  repeat split; try apply NoDup_elements.
  - apply set_eq. intros p. rewrite elem_of_union, elem_of_difference, elem_of_intersection.
    destruct (decide (p ∈ local_files L)); tauto.
  - apply set_eq. intros p.
    rewrite elem_of_intersection, elem_of_difference, elem_of_intersection, elem_of_empty.
    tauto.
  - apply set_eq. intros p. rewrite elem_of_union, elem_of_difference, elem_of_intersection.
    destruct (decide (p ∈ local_dirs L)); tauto.
  - apply set_eq. intros p.
    rewrite elem_of_intersection, elem_of_difference, elem_of_intersection, elem_of_empty.
    tauto.
Qed.

Lemma reconcile_partition_witness :
  compare_listings (Listing ["dirA/f1"; "f2"] ["dirA"]) (Listing ["f2"] []) 
    = inr (["dirA/f1"], ["f2"], ["dirA"], [])
  ∧ (list_to_set ["dirA/f1"] : gset string) ∪ list_to_set ["f2"]
    = remote_files (Listing ["dirA/f1"; "f2"] ["dirA"]).
Proof.
  assert (H : compare_listings (Listing ["dirA/f1"; "f2"] ["dirA"]) (Listing ["f2"] [])
              = inr (["dirA/f1"], ["f2"], ["dirA"], [])) by (vm_compute; reflexivity).
  split; [exact H|].
  apply (reconcile_partition _ _ _ _ _ _ H).
Defined.

(** C4: [get_missing_and_existing_files] raises its [TypeError] exactly
    when [badTypeItems = (existingFiles ∩ missingDirs) ∪ (missingFiles ∩
    existingDirs)] is not empty, the message of the error lists exactly
    the paths of [badTypeItems], and when [badTypeItems] is empty the four
    lists are returned. *)
Theorem type_conflict_iff_bad_items (R L : listing) :
  ((∃ e, compare_listings R L = inl e) ↔ badTypeItems R L ≠ ∅)
  ∧ compare_listings R L
    = (if decide (badTypeItems R L ≠ ∅)
       then inl (TypeError
                   ("The following files/dirs should be dirs/files:" +:+ Str.newline_tab
                    +:+ Str.join Str.newline_tab (Str.sorted (elements (badTypeItems R L)))))
       else inr (elements (missingFiles R L), elements (existingFiles R L),
                 elements (missingDirs R L), elements (existingDirs R L)))
  ∧ (∀ p, p ∈ Str.sorted (elements (badTypeItems R L)) ↔ p ∈ badTypeItems R L).
Proof.
  split; [|split].
  - rewrite compare_listings_eq.
    destruct (decide (badTypeItems R L ≠ ∅)) as [Hne|He].
    + split; [done|]. intros _. eauto.
    + split; [|done]. intros [e He']. discriminate.
  - apply compare_listings_eq.
  - intros p. rewrite elem_of_sorted. apply elem_of_elements.
Qed.

(** ** The monad *)

Lemma run_bind {A B} (m : M A) (k : A → M B) (st : state) :
  (m ≫= k) st = match m st with
                | (inl e, st') => (inl e, st')
                | (inr a, st') => k a st'
                end.
Proof. reflexivity. Qed.

Lemma ret_run {A} (a : A) (st : state) : (mret a : M A) st = (inr a, st).
Proof. reflexivity. Qed.

Lemma run_bind_ok {A B} (m : M A) (k : A → M B) (st st' : state) (a : A) :
  m st = (inr a, st') → (m ≫= k) st = k a st'.
Proof. intros H. rewrite run_bind, H. reflexivity. Qed.

Lemma run_bind_raise {A B} (m : M A) (k : A → M B) (st st' : state) (e : exn) :
  m st = (inl e, st') → (m ≫= k) st = (inl e, st').
Proof. intros H. rewrite run_bind, H. reflexivity. Qed.

Lemma run_bind_inv {A B} (m : M A) (k : A → M B) (st st2 : state) (r : exn + B) :
  (m ≫= k) st = (r, st2) →
  (∃ e, m st = (inl e, st2) ∧ r = inl e)
  ∨ (∃ a st1, m st = (inr a, st1) ∧ k a st1 = (r, st2)).
Proof.
  rewrite run_bind. destruct (m st) as [[e|a] st1]; intros H.
  - left. exists e. by inversion H.
  - right. eauto.
Qed.

Lemma readonly_ret {A} (a : A) : readonly (mret a).
Proof. by intros st. Qed.

Lemma readonly_raise {A} (e : exn) : readonly (raise e : M A).
Proof. by intros st. Qed.

Lemma readonly_get_fs : readonly get_fs.
Proof. by intros st. Qed.

Lemma readonly_bind {A B} (m : M A) (k : A → M B) :
  readonly m → (∀ a, readonly (k a)) → readonly (m ≫= k).
Proof.
  intros Hm Hk st. rewrite run_bind. specialize (Hm st).
  destruct (m st) as [[e|a] st1]; simpl in *; subst; [done|]. apply Hk.
Qed.

Lemma readonly_run {A} (m : M A) (st st' : state) (r : exn + A) :
  readonly m → m st = (r, st') → st' = st.
Proof. intros Hm H. specialize (Hm st). by rewrite H in Hm. Qed.

Lemma readonly_subscript {V} (d : gmap string V) (f : string) : readonly (subscript d f).
Proof. unfold subscript. destruct (d !! f); [apply readonly_ret|apply readonly_raise]. Qed.

Lemma readonly_dict_of {V} (l : list string) (g : string → M V) (d : gmap string V) :
  (∀ f, readonly (g f)) → readonly (dict_of l g d).
Proof.
  intros Hg. revert d. induction l as [|f l IH]; intros d; simpl.
  - apply readonly_ret.
  - apply readonly_bind; [apply Hg|]. intros v. apply IH.
Qed.

Lemma readonly_select (l : list string) (cond : string → M bool) :
  (∀ f, readonly (cond f)) → readonly (select l cond).
Proof.
  intros Hc. induction l as [|f l IH]; simpl.
  - apply readonly_ret.
  - apply readonly_bind; [apply Hc|]. intros b.
    apply readonly_bind; [apply IH|]. intros r. apply readonly_ret.
Qed.

Lemma readonly_sha1sum (p : string) : readonly (sha1sum p).
Proof.
  unfold sha1sum. apply readonly_bind; [apply readonly_get_fs|]. intros m.
  destruct (m !! p) as [[]|]; (apply readonly_ret || apply readonly_raise).
Qed.

Lemma readonly_getsize (p : string) : readonly (os.getsize p).
Proof.
  unfold os.getsize. apply readonly_bind; [apply readonly_get_fs|]. intros m.
  destruct (m !! p) as [[]|]; (apply readonly_ret || apply readonly_raise).
Qed.

Lemma readonly_verify (dev : device) (l : list string) : readonly (verify dev l).
Proof.
  unfold verify.
  apply readonly_bind; [apply readonly_dict_of; intros; apply readonly_ret|]. intros d1.
  apply readonly_bind; [apply readonly_dict_of; intros; apply readonly_sha1sum|]. intros d2.
  apply readonly_bind; [apply readonly_dict_of; intros; apply readonly_ret|]. intros d3.
  apply readonly_bind; [apply readonly_dict_of; intros; apply readonly_getsize|]. intros d4.
  apply readonly_select. intros f.
  apply readonly_bind; [apply readonly_subscript|]. intros s1.
  apply readonly_bind; [apply readonly_subscript|]. intros s2.
  destruct (decide (s1 ≠ s2)); [apply readonly_ret|].
  apply readonly_bind; [apply readonly_subscript|]. intros z1.
  apply readonly_bind; [apply readonly_subscript|]. intros z2.
  apply readonly_ret.
Qed.

(** ** Verification *)

Lemma faultyb_spec (dev : device) (m : gmap string node) (f : string) :
  faultyb dev m f = true ↔ faulty dev m f.
Proof.
  unfold faultyb, faulty. destruct (m !! f) as [[size sha1|]|] eqn:Hf.
  - rewrite orb_true_iff, !bool_decide_eq_true. split.
    + intros H. exists size, sha1. done.
    + intros (? & ? & [= <- <-] & H). done.
  - split; [done|]. intros (? & ? & ? & _). done.
  - split; [done|]. intros (? & ? & ? & _). done.
Qed.

Lemma dict_pure_lookup {V} (l : list string) (h : string → V) (d : gmap string V) (f : string) :
  f ∈ l → dict_pure l h d !! f = Some (h f).
Proof.
  unfold dict_pure. revert d. induction l as [|x l IH] using rev_ind; intros d Hin.
  - by apply elem_of_nil in Hin.
  - rewrite foldl_app. simpl. destruct (decide (x = f)) as [->|Hne].
    + apply lookup_insert_eq.
    + rewrite lookup_insert_ne by done. apply IH.
      apply elem_of_app in Hin as [Hin|Hin]; [done|].
      apply list_elem_of_singleton in Hin. congruence.
Qed.

Lemma dict_of_ok {V} (l : list string) (g : string → M V) (h : string → V)
    (d : gmap string V) (st : state) :
  (∀ f, f ∈ l → g f st = (inr (h f), st)) →
  dict_of l g d st = (inr (dict_pure l h d), st).
Proof.
  revert d. induction l as [|x l IH]; intros d Hg; simpl; [reflexivity|].
  rewrite (run_bind_ok _ _ _ _ _ (Hg x ltac:(left))).
  apply IH. intros f Hf. apply Hg. by right.
Qed.

Lemma dict_of_returns_inv {V} (l : list string) (g : string → M V)
    (d r : gmap string V) (st st' : state) :
  (∀ f, readonly (g f)) →
  dict_of l g d st = (inr r, st') →
  ∀ f, f ∈ l → ∃ v, g f st = (inr v, st).
Proof.
  intros Hro. revert d. induction l as [|x l IH]; intros d Hrun f Hin.
  - by apply elem_of_nil in Hin.
  - simpl in Hrun. apply run_bind_inv in Hrun as [(e & _ & ?)|(v & st1 & Hx & Hrest)]; [done|].
    assert (st1 = st) as -> by (eapply readonly_run; [apply Hro|exact Hx]).
    apply elem_of_cons in Hin as [->|Hin]; [eauto|]. eapply IH; eauto.
Qed.

Lemma select_ok (l : list string) (cond : string → M bool) (c : string → bool) (st : state) :
  (∀ f, f ∈ l → cond f st = (inr (c f), st)) →
  select l cond st = (inr (filter (λ f, c f = true) l), st).
Proof.
  induction l as [|x l IH]; intros Hc; simpl; [reflexivity|].
  rewrite (run_bind_ok _ _ _ _ _ (Hc x ltac:(left))).
  rewrite (run_bind_ok _ _ _ _ _ (IH (λ f Hf, Hc f ltac:(by right)))).
  rewrite filter_cons. destruct (c x); reflexivity.
Qed.

Lemma get_dst_sha1sum_file (f : string) (st : state) (size : Z) (sha1 : string) :
  fs st !! f = Some (File size sha1) → get_dst_sha1sum f st = (inr sha1, st).
Proof.
  intros Hf. unfold get_dst_sha1sum, sha1sum. rewrite filename2osformat_id.
  rewrite run_bind. simpl. rewrite Hf. reflexivity.
Qed.

Lemma get_dst_sha1sum_returns_inv (f : string) (st st' : state) (v : string) :
  get_dst_sha1sum f st = (inr v, st') → ∃ size, fs st !! f = Some (File size v).
Proof.
  unfold get_dst_sha1sum, sha1sum. rewrite filename2osformat_id.
  rewrite run_bind. simpl. destruct (fs st !! f) as [[size sha1|]|]; [|done..].
  intros [= <- _]. eauto.
Qed.

Lemma getsize_file (f : string) (st : state) (size : Z) (sha1 : string) :
  fs st !! f = Some (File size sha1) → os.getsize f st = (inr size, st).
Proof.
  intros Hf. unfold os.getsize. rewrite run_bind. simpl. rewrite Hf. reflexivity.
Qed.

Lemma subscript_ok {V} (d : gmap string V) (f : string) (v : V) (st : state) :
  d !! f = Some v → subscript d f st = (inr v, st).
Proof. intros H. unfold subscript. rewrite H. reflexivity. Qed.

Lemma verify_ok (dev : device) (l : list string) (st : state) :
  (∀ f, f ∈ l → os.isfile (fs st) f = true) →
  verify dev l st = (inr (filter (λ f, faultyb dev (fs st) f = true) l), st).
Proof.
  intros Hfiles.
  assert (Hfile : ∀ f, f ∈ l →
            fs st !! f = Some (File (local_size (fs st) f) (local_sha1 (fs st) f))).
  { intros f Hf. specialize (Hfiles f Hf). unfold os.isfile, local_size, local_sha1 in *.
    destruct (fs st !! f) as [[]|]; done. }
  unfold verify.
  rewrite (run_bind_ok _ _ _ _ _
             (dict_of_ok l (get_src_sha1sum dev) (dev_sha1sum dev) ∅ st (λ _ _, eq_refl))).
  rewrite (run_bind_ok _ _ _ _ _
             (dict_of_ok l get_dst_sha1sum (local_sha1 (fs st)) ∅ st
                (λ f Hf, get_dst_sha1sum_file f st _ _ (Hfile f Hf)))).
  rewrite (run_bind_ok _ _ _ _ _
             (dict_of_ok l (get_src_file_size dev) (dev_file_size dev) ∅ st (λ _ _, eq_refl))).
  rewrite (run_bind_ok _ _ _ _ _
             (dict_of_ok l (λ f, os.getsize (filename2osformat f)) (local_size (fs st)) ∅ st
                (λ f Hf, eq_trans (f_equal (λ p, os.getsize p st) (filename2osformat_id f))
                                  (getsize_file f st _ _ (Hfile f Hf))))).
  apply select_ok. intros f Hf.
  rewrite (run_bind_ok _ _ _ _ _ (subscript_ok _ f _ st (dict_pure_lookup l _ ∅ f Hf))).
  rewrite (run_bind_ok _ _ _ _ _ (subscript_ok _ f _ st (dict_pure_lookup l _ ∅ f Hf))).
  unfold faultyb. rewrite (Hfile f Hf).
  destruct (decide (dev_sha1sum dev f ≠ local_sha1 (fs st) f)) as [Hne|Heq].
  - rewrite (bool_decide_eq_true_2 _ Hne). reflexivity.
  - rewrite (bool_decide_eq_false_2 _ Heq). simpl.
    rewrite (run_bind_ok _ _ _ _ _ (subscript_ok _ f _ st (dict_pure_lookup l _ ∅ f Hf))).
    rewrite (run_bind_ok _ _ _ _ _ (subscript_ok _ f _ st (dict_pure_lookup l _ ∅ f Hf))).
    reflexivity.
Qed.

Lemma verify_returns_inv (dev : device) (l bad : list string) (st st' : state) :
  verify dev l st = (inr bad, st') →
  (∀ f, f ∈ l → os.isfile (fs st) f = true).
Proof.
  unfold verify. intros H f Hf.
  apply run_bind_inv in H as [(e & _ & ?)|(d1 & st1 & H1 & H)]; [done|].
  assert (st1 = st) as ->.
  { eapply readonly_run; [|exact H1]. apply readonly_dict_of. intros. apply readonly_ret. }
  apply run_bind_inv in H as [(e & _ & ?)|(d2 & st2 & H2 & H)]; [done|].
  destruct (dict_of_returns_inv _ _ _ _ _ _ (λ f, readonly_sha1sum _) H2 f Hf) as [v Hv].
  apply get_dst_sha1sum_returns_inv in Hv as [size Hv].
  unfold os.isfile. by rewrite Hv.
Qed.

Lemma verify_returns (dev : device) (l bad : list string) (st st' : state) :
  verify dev l st = (inr bad, st') →
  st' = st ∧ bad = filter (λ f, faultyb dev (fs st) f = true) l
  ∧ (∀ f, f ∈ l → os.isfile (fs st) f = true).
Proof.
  intros H. pose proof (verify_returns_inv _ _ _ _ _ H) as Hfiles.
  rewrite (verify_ok _ _ _ Hfiles) in H. injection H as <- <-. auto.
Qed.


(** ** Loops *)

Lemma for_each_inv {A} (R : relation state) (Q : A → state → Prop)
    (l : list A) (body : A → M unit) :
  Reflexive R → Transitive R →
  (∀ x st st', Q x st → R st st' → Q x st') →
  (∀ x st r st', x ∈ l → body x st = (r, st') → R st st' ∧ (r = inr () → Q x st')) →
  ∀ st r st', for_each l body st = (r, st') →
              R st st' ∧ (r = inr () → ∀ x, x ∈ l → Q x st').
Proof.
  intros Hrefl Htrans Hstable. induction l as [|x l IH]; intros Hbody st r st' Hrun.
  - simpl in Hrun. injection Hrun as <- <-. split; [reflexivity|].
    intros _ y Hy. by apply elem_of_nil in Hy.
  - simpl in Hrun.
    apply run_bind_inv in Hrun as [(e & Hx & ->)|([] & st1 & Hx & Hrest)].
    + destruct (Hbody _ _ _ _ ltac:(left) Hx) as [HR _]. split; [done|done].
    + destruct (Hbody _ _ _ _ ltac:(left) Hx) as [HR HQ].
      destruct (IH (λ y s r' s' Hy, Hbody y s r' s' ltac:(by right)) _ _ _ Hrest)
        as [HR' HQ'].
      split; [by etrans|]. intros -> y Hy.
      apply elem_of_cons in Hy as [->|Hy]; [|by apply HQ'].
      eapply Hstable; [by apply HQ|done].
Qed.


(** ** Directory creation *)

#[local] Instance grows_refl : Reflexive grows.
Proof. intros m p. by left. Qed.

#[local] Instance grows_trans : Transitive grows.
Proof.
  intros m1 m2 m3 H12 H23 p. destruct (H12 p) as [E12|[N1 D2]], (H23 p) as [E23|[N2 D3]].
  - left. congruence.
  - right. split; congruence.
  - right. split; congruence.
  - congruence.
Qed.

#[local] Instance dirs_only_refl : Reflexive dirs_only.
Proof. intros st. by split. Qed.

#[local] Instance dirs_only_trans : Transitive dirs_only.
Proof.
  intros s1 s2 s3 (G12 & I12 & O12) (G23 & I23 & O23).
  split; [by etrans|]. split; congruence.
Qed.

Lemma grows_dir (m m' : gmap string node) (p : string) :
  grows m m' → m !! p = Some Dir → m' !! p = Some Dir.
Proof. intros H Hp. destruct (H p) as [E|[N _]]; congruence. Qed.

Lemma grows_kept (m m' : gmap string node) (p : string) (n : node) :
  grows m m' → m !! p = Some n → m' !! p = Some n.
Proof. intros H Hp. destruct (H p) as [E|[N _]]; congruence. Qed.

Lemma mkdir_exist_ok_run (p : string) (st : state) (r : exn + unit) (st' : state) :
  os.mkdir_exist_ok p st = (r, st') →
  dirs_only st st' ∧ (r = inr () → fs st' !! p = Some Dir).
Proof.
  unfold os.mkdir_exist_ok. rewrite run_bind. simpl.
  destruct (fs st !! p) as [[size sha1|]|] eqn:Hp.
  - intros [= <- <-]. split; [reflexivity|done].
  - intros [= <- <-]. split; [reflexivity|done].
  - intros [= <- <-]. split; [|intros _; apply lookup_insert_eq].
    split; [|done]. intros q. simpl. destruct (decide (p = q)) as [<-|Hne].
    + right. split; [done|apply lookup_insert_eq].
    + left. by apply lookup_insert_ne.
Qed.

Lemma makedirs_run (p : string) (st : state) (r : exn + unit) (st' : state) :
  os.makedirs p st = (r, st') →
  dirs_only st st'
  ∧ (r = inr () → ∀ q, q ∈ os.parents p ++ [p] → fs st' !! q = Some Dir).
Proof.
  unfold os.makedirs.
  apply (for_each_inv dirs_only (λ q s, fs s !! q = Some Dir)); [apply _..| |].
  - intros q s s' Hq [Hg _]. by eapply grows_dir.
  - intros q s r' s' _. apply mkdir_exist_ok_run.
Qed.

Lemma create_all_directories_run (dirs : list string) (st : state)
    (r : exn + unit) (st' : state) :
  create_all_directories dirs st = (r, st') →
  dirs_only st st' ∧ (r = inr () → ∀ d, d ∈ dirs → fs st' !! d = Some Dir).
Proof.
  unfold create_all_directories. intros Hrun.
  eapply (for_each_inv dirs_only (λ q s, fs s !! q = Some Dir)) in Hrun
    as [HR HQ]; [| apply _ | apply _ | |].
  - split; [done|]. intros -> d Hd. apply HQ; [done|]. by apply elem_of_sorted.
  - intros q s s' Hq [Hg _]. by eapply grows_dir.
  - intros d s r' s' _. rewrite filename2osformat_id, run_bind. simpl.
    unfold os.exists_, os.isdir. destruct (fs s !! d) as [[size sha1|]|] eqn:Hd; simpl.
    + intros [= <- <-]. split; [reflexivity|done].
    + intros [= <- <-]. split; [reflexivity|done].
    + intros Hmk. apply makedirs_run in Hmk as [HR HQ]. split; [done|].
      intros ->. apply HQ; [done|]. apply elem_of_app. right. by left.
Qed.


(** ** Computations that send no [adb pull] *)

Lemma nap_readonly {A} (c : M A) : readonly c → no_adb_pull c.
Proof. intros Hc st r st' Hrun f Hf. by rewrite (readonly_run _ _ _ _ Hc Hrun) in Hf. Qed.

Lemma nap_ret {A} (a : A) : no_adb_pull (mret a).
Proof. apply nap_readonly, readonly_ret. Qed.

Lemma nap_raise {A} (e : exn) : no_adb_pull (raise e : M A).
Proof. apply nap_readonly, readonly_raise. Qed.

Lemma nap_bind {A B} (c : M A) (k : A → M B) :
  no_adb_pull c → (∀ a, no_adb_pull (k a)) → no_adb_pull (c ≫= k).
Proof.
  intros Hc Hk st r st' Hrun f Hf.
  apply run_bind_inv in Hrun as [(e & Hx & ->)|(a & st1 & Hx & Hrest)].
  - by eapply Hc.
  - eapply Hc; [done|]. by eapply Hk.
Qed.

Lemma nap_set_fs (m : gmap string node) : no_adb_pull (set_fs m).
Proof. intros st r st' [= <- <-] f Hf. done. Qed.

Lemma nap_emit (e : event) : (∀ f, e ≠ AdbPull f) → no_adb_pull (emit e).
Proof.
  intros He st r st' [= <- <-] f Hf. simpl in Hf.
  apply elem_of_app in Hf as [Hf|Hf]; [done|].
  apply list_elem_of_singleton in Hf. by destruct (He f).
Qed.

Lemma nap_for_each {A} (l : list A) (body : A → M unit) :
  (∀ x, no_adb_pull (body x)) → no_adb_pull (for_each l body).
Proof.
  intros Hb. induction l as [|x l IH]; simpl; [apply nap_ret|].
  apply nap_bind; [apply Hb|]. intros _. apply IH.
Qed.

Lemma nap_ask_user_yes_no (msg : string) : no_adb_pull (ask_user_yes_no msg).
Proof.
  intros st r st' Hrun f Hf. unfold ask_user_yes_no in Hrun.
  destruct (stdin st); injection Hrun as <- <-; simpl in Hf;
    (apply elem_of_app in Hf as [Hf|Hf]; [done|]);
    apply list_elem_of_singleton in Hf; done.
Qed.

Lemma nap_delete_files (files : list string) : no_adb_pull (delete_files files).
Proof.
  apply nap_for_each. intros f. unfold os.remove.
  apply nap_bind; [apply nap_readonly, readonly_get_fs|]. intros m.
  destruct (m !! filename2osformat f) as [[]|]; (apply nap_set_fs || apply nap_raise).
Qed.

Lemma nap_create_all_directories (dirs : list string) :
  no_adb_pull (create_all_directories dirs).
Proof.
  intros st r st' Hrun f Hf.
  apply create_all_directories_run in Hrun as [(_ & _ & Hout) _]. by rewrite Hout in Hf.
Qed.

Lemma nap_verify_and_delete (args : arguments) (dev : device) (l : list string) :
  no_adb_pull (verify_and_delete args dev l).
Proof.
  unfold verify_and_delete.
  apply nap_bind; [by apply nap_emit|]. intros _.
  apply nap_bind; [apply nap_readonly, readonly_verify|]. intros bad.
  apply nap_bind; [by apply nap_emit|]. intros _.
  apply nap_bind.
  { destruct (decide (bad ≠ [])); [|apply nap_ret].
    destruct (yes args); [apply nap_ret|apply nap_ask_user_yes_no]. }
  intros confirmed. apply nap_bind; [|intros; apply nap_ret].
  destruct confirmed; [|apply nap_ret].
  apply nap_bind; [by apply nap_emit|]. intros _. apply nap_delete_files.
Qed.

Lemma readonly_single_file (filename : string) : readonly (single_file filename).
Proof.
  unfold single_file. apply readonly_bind; [apply readonly_get_fs|]. intros m.
  destruct (os.exists_ m _); [|apply readonly_ret].
  destruct (negb _); [apply readonly_raise|apply readonly_ret].
Qed.

Lemma readonly_get_missing_and_existing_files (dev : device) :
  readonly (get_missing_and_existing_files dev).
Proof.
  unfold get_missing_and_existing_files.
  apply readonly_bind; [apply readonly_ret|]. intros src.
  apply readonly_bind; [apply readonly_get_fs|]. intros m. by intros st.
Qed.

(** The part of [main] that finds the four lists. *)
Lemma readonly_lists (args : arguments) (dev : device) (src_type : string) :
  readonly (if decide (src_type = "file")
            then single_file (Str.basename (src_path args))
            else get_missing_and_existing_files dev).
Proof.
  destruct (decide _);
    [apply readonly_single_file|apply readonly_get_missing_and_existing_files].
Qed.

(** A run that was asked to verify sends no [adb pull]. *)
Lemma nap_main_from_lists_verify (args : arguments) (dev : device) (lists : reconciled) :
  verify_flag args = true → no_adb_pull (main_from_lists args dev lists).
Proof.
  intros Hv. destruct lists as [[[mf ef] md] ed]. unfold main_from_lists. rewrite Hv. simpl.
  apply nap_bind; [by apply nap_emit|]. intros _.
  apply nap_bind; [by apply nap_emit|]. intros _.
  apply nap_bind; [apply nap_create_all_directories|]. intros _.
  apply nap_bind; [apply nap_verify_and_delete|]. intros bad. apply nap_ret.
Qed.

Lemma nap_main_verify (args : arguments) (dev : device) :
  verify_flag args = true → no_adb_pull (main args dev).
Proof.
  intros Hv. unfold main, print_error.
  destruct (negb (adb_path_is_file args)); [by apply nap_emit|].
  destruct (negb (dst_path_is_dir args)); [by apply nap_emit|].
  destruct (negb (dev_connected dev)); [by apply nap_emit|].
  apply nap_bind; [apply nap_ret|]. intros src_type.
  destruct (decide (src_type = "none")); [by apply nap_emit|].
  apply nap_bind; [apply nap_readonly, readonly_lists|]. intros lists.
  by apply nap_main_from_lists_verify.
Qed.

(** ** Deletion of the faulty files *)

Lemma shrinks_refl (files : list string) (m : gmap string node) : shrinks files m m.
Proof. intros p. by left. Qed.

Lemma shrinks_trans (files : list string) (m1 m2 m3 : gmap string node) :
  shrinks files m1 m2 → shrinks files m2 m3 → shrinks files m1 m3.
Proof.
  intros H12 H23 p. unfold shrinks, os.isfile in *.
  destruct (H12 p) as [E12|(F1 & I1 & N2)], (H23 p) as [E23|(F2 & I2 & N3)].
  - left. congruence.
  - right. rewrite <- E12. done.
  - right. split; [done|]. split; [done|]. congruence.
  - rewrite N2 in I2. done.
Qed.

Lemma remove_run (p : string) (st : state) (r : exn + unit) (st' : state) :
  os.remove p st = (r, st') →
  shrinks [p] (fs st) (fs st') ∧ stdin st' = stdin st ∧ out st' = out st.
Proof.
  unfold os.remove. rewrite run_bind. simpl.
  destruct (fs st !! p) as [[size sha1|]|] eqn:Hp; intros [= <- <-];
    try (split; [apply shrinks_refl|done]).
  split; [|done]. intros q. simpl. destruct (decide (p = q)) as [<-|Hne].
  - right. split; [by left|]. split; [|apply lookup_delete_eq].
    unfold os.isfile. by rewrite Hp.
  - left. by apply lookup_delete_ne.
Qed.

Lemma shrinks_mono (files files' : list string) (m m' : gmap string node) :
  files ⊆ files' → shrinks files m m' → shrinks files' m m'.
Proof.
  intros Hsub H p. destruct (H p) as [E|(F & I & N)]; [by left|].
  right. split; [by apply Hsub|done].
Qed.

Lemma delete_files_run (files : list string) (st : state) (r : exn + unit) (st' : state) :
  delete_files files st = (r, st') →
  shrinks files (fs st) (fs st') ∧ stdin st' = stdin st ∧ out st' = out st.
Proof.
  unfold delete_files. intros Hrun.
  eapply (for_each_inv
            (λ s s', shrinks files (fs s) (fs s') ∧ stdin s' = stdin s ∧ out s' = out s)
            (λ _ _, True)) in Hrun as [HR _]; [done| | | |].
  - intros s. split; [apply shrinks_refl|done].
  - intros s1 s2 s3 (S12 & I12 & O12) (S23 & I23 & O23).
    split; [by eapply shrinks_trans|]. split; congruence.
  - done.
  - intros f s r' s' Hf Hrm. rewrite filename2osformat_id in Hrm.
    apply remove_run in Hrm as (Hs & Hi & Ho). split; [|done].
    split; [|done]. eapply shrinks_mono; [|exact Hs].
    intros q Hq. apply list_elem_of_singleton in Hq. by subst.
Qed.

Lemma emit_run (e : event) (st : state) :
  emit e st = (inr (), State (fs st) (stdin st) (out st ++ [e])).
Proof. reflexivity. Qed.

Lemma remove_file (f : string) (st : state) :
  os.isfile (fs st) f = true →
  os.remove f st = (inr (), State (delete f (fs st)) (stdin st) (out st)).
Proof.
  unfold os.isfile, os.remove. intros Hf. rewrite run_bind. unfold get_fs. cbv beta iota.
  by destruct (fs st !! f) as [[]|].
Qed.

Lemma remove_not_file (f : string) (st : state) :
  os.isfile (fs st) f = false → os.remove f st = (inl (OSError f), st).
Proof.
  unfold os.isfile, os.remove. intros Hf. rewrite run_bind. unfold get_fs. cbv beta iota.
  by destruct (fs st !! f) as [[]|].
Qed.

Lemma delete_files_cons (f : string) (files : list string) :
  delete_files (f :: files) = (os.remove f ;; delete_files files).
Proof. unfold delete_files. cbn [for_each]. by rewrite filename2osformat_id. Qed.

Lemma isfile_delete (m : gmap string node) (f p : string) :
  os.isfile (delete f m) p = if decide (p = f) then false else os.isfile m p.
Proof.
  unfold os.isfile. destruct (decide (p = f)) as [->|Hne].
  - by rewrite lookup_delete_eq.
  - by rewrite lookup_delete_ne.
Qed.

Lemma delete_files_spec (files : list string) (st : state) :
  ((∃ st', delete_files files st = (inr (), st'))
   ↔ NoDup files ∧ ∀ f, f ∈ files → os.isfile (fs st) f = true)
  ∧ (∀ st', delete_files files st = (inr (), st') →
       stdin st' = stdin st ∧ out st' = out st
       ∧ ∀ p, fs st' !! p = if decide (p ∈ files) then None else fs st !! p).
Proof.
  revert st. induction files as [|f files IH]; intros st.
  - split.
    + split; [intros _; split; [constructor|by intros ? ?%elem_of_nil]|eauto].
    + intros st' [= <-]. done.
  - rewrite delete_files_cons. split.
    + split.
      * intros [st' Hrun].
        apply run_bind_inv in Hrun as [(e & _ & ?)|([] & st1 & Hrm & Hrun)]; [done|].
        destruct (os.isfile (fs st) f) eqn:Hf;
          [|by rewrite (remove_not_file _ _ Hf) in Hrm].
        rewrite (remove_file _ _ Hf) in Hrm. injection Hrm as <-.
        destruct (IH (State (delete f (fs st)) (stdin st) (out st))) as [[Hiff _] _].
        destruct (Hiff (ex_intro _ st' Hrun)) as [Hnd Hfiles]. cbn [fs] in Hfiles.
        split.
        -- constructor; [|done]. intros Hin. specialize (Hfiles f Hin).
           rewrite isfile_delete, decide_True in Hfiles; done.
        -- intros g [->|Hg]%elem_of_cons; [done|]. specialize (Hfiles g Hg).
           rewrite isfile_delete in Hfiles. by destruct (decide (g = f)).
      * intros [Hnd Hfiles]. apply NoDup_cons in Hnd as [Hnin Hnd].
        rewrite (run_bind_ok _ _ _ _ _ (remove_file f st (Hfiles f ltac:(left)))).
        apply IH. split; [done|]. intros g Hg. cbn [fs].
        rewrite isfile_delete, decide_False by (intros ->; done).
        apply Hfiles. by right.
    + intros st' Hrun.
      apply run_bind_inv in Hrun as [(e & _ & ?)|([] & st1 & Hrm & Hrun)]; [done|].
      destruct (os.isfile (fs st) f) eqn:Hf;
        [|by rewrite (remove_not_file _ _ Hf) in Hrm].
      rewrite (remove_file _ _ Hf) in Hrm. injection Hrm as <-.
      destruct (IH (State (delete f (fs st)) (stdin st) (out st))) as [[Hiff _] Hres].
      destruct (Hiff (ex_intro _ st' Hrun)) as [Hnd Hfiles]. cbn [fs] in Hfiles.
      destruct (Hres st' Hrun) as (Hin & Hout & Hfs). cbn [fs stdin out] in *.
      split; [done|]. split; [done|]. intros p. rewrite Hfs.
      destruct (decide (p = f)) as [->|Hne].
      * rewrite (decide_True (P := f ∈ f :: files)) by left.
        destruct (decide (f ∈ files)); [done|]. apply lookup_delete_eq.
      * destruct (decide (p ∈ files)) as [Hp|Hp].
        -- rewrite decide_True; [done|by right].
        -- rewrite decide_False; [by apply lookup_delete_ne|].
           intros [?|?]%elem_of_cons; done.
Qed.

(** What the deletion was approved by: [--yes], or a yes typed at the
    prompt. *)
Lemma verify_and_delete_run (args : arguments) (dev : device) (existing_files : list string)
    (st : state) (r : exn + list string) (st' : state) :
  verify_and_delete args dev existing_files st = (r, st') →
  let bad_files := filter (λ f, faultyb dev (fs st) f = true) existing_files in
  (fs st' = fs st
   ∨ ((yes args = true ∨ ∃ answer rest, stdin st = answer :: rest ∧ is_yes answer = true)
      ∧ shrinks bad_files (fs st) (fs st')))
  ∧ (∀ b, r = inr b → b = bad_files).
Proof.
  unfold verify_and_delete. intros Hrun. simpl.
  rewrite (run_bind_ok _ _ _ _ _ (emit_run _ _)) in Hrun.
  apply run_bind_inv in Hrun as [(e & Hv & ->)|(bad & st1 & Hv & Hrun)].
  { rewrite (readonly_run _ _ _ _ (readonly_verify _ _) Hv). simpl. split; [by left|done]. }
  apply verify_returns in Hv as (-> & Hbad & _). simpl in Hbad.
  rewrite (run_bind_ok _ _ _ _ _ (emit_run _ _)) in Hrun. simpl in Hrun.
  apply run_bind_inv in Hrun as [(e & Hc & ->)|(confirmed & st2 & Hc & Hrun)].
  { split; [|done]. left.
    destruct (decide (bad ≠ [])); [|done]. destruct (yes args); [done|].
    unfold ask_user_yes_no in Hc. simpl in Hc. destruct (stdin st); by injection Hc as _ <-. }
  assert (Hst2 : fs st2 = fs st
                 ∧ (confirmed = true →
                    yes args = true ∨ ∃ answer rest, stdin st = answer :: rest
                                                     ∧ is_yes answer = true)).
  { destruct (decide (bad ≠ [])); [|by injection Hc as <- <-].
    destruct (yes args); [injection Hc as <- <-; auto|].
    unfold ask_user_yes_no in Hc. simpl in Hc.
    destruct (stdin st) as [|answer rest]; [done|]. injection Hc as <- <-.
    split; [done|]. intros Hyes. right. eauto. }
  destruct Hst2 as [Hfs2 Hconf].
  apply run_bind_inv in Hrun as [(e & Hd & ->)|([] & st3 & Hd & Hrun)].
  - split; [|done]. destruct confirmed; [|done].
    rewrite (run_bind_ok _ _ _ _ _ (emit_run _ _)) in Hd.
    apply delete_files_run in Hd as (Hs & _). simpl in Hs.
    right. split; [by apply Hconf|]. rewrite Hfs2, Hbad in Hs. exact Hs.
  - injection Hrun as <- <-. split; [|by intros b [= <-]].
    destruct confirmed; [|by injection Hd as <-; left].
    rewrite (run_bind_ok _ _ _ _ _ (emit_run _ _)) in Hd.
    apply delete_files_run in Hd as (Hs & _). simpl in Hs.
    right. split; [by apply Hconf|]. rewrite Hfs2, Hbad in Hs. exact Hs.
Qed.

(** ** Pulling *)

Lemma pull_file_run (dev : device) (f : string) (st : state) :
  let m' := dev_pull dev f (fs st) in
  let st1 := State m' (stdin st) (out st ++ [AdbPull f]) in
  pull_file dev f st =
    if decide (dev_pull_status dev f (fs st) ≠ 0)
    then (inl (CalledProcessError (dev_pull_status dev f (fs st))), st1)
    else
      match m' !! f with
      | None => (inr "not_pulled", st1)
      | Some Dir => (inl (TypeError "exceptions must derive from BaseException"), st1)
      | Some (File size sha1) =>
          if decide (dev_file_size dev f ≠ size) then (inr "wrong_size", st1)
          else if decide (dev_sha1sum dev f ≠ sha1) then (inr "wrong_hash", st1)
          else (inr "success", st1)
      end.
Proof.
  intros m' st1. unfold pull_file, run_adb_pull, check_output.
  rewrite filename2osformat_id.
  repeat (rewrite run_bind; simpl).
  destruct (decide (dev_pull_status dev f (fs st) ≠ 0)); [reflexivity|].
  rewrite ret_run. repeat (rewrite run_bind; simpl). fold m'. fold st1.
  unfold os.isfile, os.exists_.
  destruct (m' !! f) as [[size sha1|]|] eqn:Hf; simpl; [|reflexivity..].
  rewrite run_bind. simpl.
  rewrite (run_bind_ok _ _ _ _ _ (getsize_file f st1 size sha1 Hf)).
  destruct (decide (dev_file_size dev f ≠ size)); [reflexivity|].
  rewrite run_bind. simpl.
  rewrite (run_bind_ok _ _ _ _ _ (get_dst_sha1sum_file f st1 size sha1 Hf)).
  destruct (decide (dev_sha1sum dev f ≠ sha1)); reflexivity.
Qed.

Lemma pull_file_state (dev : device) (f : string) (st : state) (r : exn + string) (st' : state) :
  pull_file dev f st = (r, st') →
  st' = State (dev_pull dev f (fs st)) (stdin st) (out st ++ [AdbPull f]).
Proof.
  rewrite pull_file_run. simpl.
  destruct (decide (dev_pull_status dev f (fs st) ≠ 0)); [by intros [= _ <-]|].
  destruct (dev_pull dev f (fs st) !! f) as [[size sha1|]|];
    repeat case_decide; by intros [= _ <-].
Qed.

Lemma delete_one_file (f : string) (st : state) (size : Z) (sha1 : string) :
  fs st !! f = Some (File size sha1) →
  delete_files [f] st = (inr (), State (delete f (fs st)) (stdin st) (out st)).
Proof.
  intros Hf. unfold delete_files. simpl. rewrite filename2osformat_id.
  unfold os.remove. repeat (rewrite run_bind; simpl). rewrite Hf. reflexivity.
Qed.

Lemma pull_loop_cons (dev : device) (sizes : gmap string Z) (f : string)
    (rest failed : list string) :
  pull_loop dev sizes (f :: rest) failed =
    (pull_status ← pull_file dev f;
     failed_files ←
       (if decide (pull_status ≠ "success") then
          print_error_pull f pull_status ;;
          (if decide (pull_status ≠ "not_pulled") then delete_files [f] else mret ()) ;;
          mret (failed ++ [f])
        else mret failed);
     _ ← subscript sizes f;
     pull_loop dev sizes rest failed_files).
Proof. reflexivity. Qed.

(** What [main] does with a pull that left a file but did not succeed. *)
Lemma pull_failed_run (f pull_status : string) (failed : list string) (st : state)
    (size : Z) (sha1 : string) :
  fs st !! f = Some (File size sha1) →
  pull_status ≠ "success" → pull_status ≠ "not_pulled" →
  (if decide (pull_status ≠ "success") then
     print_error_pull f pull_status ;;
     (if decide (pull_status ≠ "not_pulled") then delete_files [f] else mret ()) ;;
     mret (failed ++ [f])
   else mret failed) st
  = (inr (failed ++ [f]),
     State (delete f (fs st)) (stdin st) (out st ++ [PrintPullError f pull_status true])).
Proof.
  intros Hf Hs Hn. rewrite (decide_True _ _ Hs), (decide_True _ _ Hn).
  unfold print_error_pull. rewrite (bool_decide_eq_true_2 _ Hn).
  rewrite (run_bind_ok _ _ _ _ _ (emit_run _ _)).
  erewrite run_bind_ok; [|apply (delete_one_file f _ size sha1); exact Hf].
  reflexivity.
Qed.

Lemma pull_loop_step (dev : device) (sizes : gmap string Z) (f : string)
    (rest failed : list string) (st : state) (z : Z) :
  sizes !! f = Some z → dev_pull_status dev f (fs st) = 0 →
  pull_loop dev sizes (f :: rest) failed st =
    let m' := dev_pull dev f (fs st) in
    let pulled := State m' (stdin st) (out st ++ [AdbPull f]) in
    match m' !! f with
    | None =>
        pull_loop dev sizes rest (failed ++ [f])
          (State m' (stdin st) (out st ++ [AdbPull f; PrintPullError f "not_pulled" false]))
    | Some Dir => (inl (TypeError "exceptions must derive from BaseException"), pulled)
    | Some (File size sha1) =>
        if decide (dev_file_size dev f ≠ size) then
          pull_loop dev sizes rest (failed ++ [f])
            (State (delete f m') (stdin st)
                   (out st ++ [AdbPull f; PrintPullError f "wrong_size" true]))
        else if decide (dev_sha1sum dev f ≠ sha1) then
          pull_loop dev sizes rest (failed ++ [f])
            (State (delete f m') (stdin st)
                   (out st ++ [AdbPull f; PrintPullError f "wrong_hash" true]))
        else pull_loop dev sizes rest failed pulled
    end.
Proof.
  intros Hz Hexit. cbv zeta. rewrite pull_loop_cons, run_bind, pull_file_run. cbv zeta.
  rewrite decide_False by (by intros ?).
  destruct (dev_pull dev f (fs st) !! f) as [[size sha1|]|] eqn:Hf; [| reflexivity |].
  - destruct (decide (dev_file_size dev f ≠ size));
      [|destruct (decide (dev_sha1sum dev f ≠ sha1))].
    + rewrite (run_bind_ok _ _ _ _ _
                 (pull_failed_run f "wrong_size" failed
                    (State (dev_pull dev f (fs st)) (stdin st) (out st ++ [AdbPull f]))
                    size sha1 Hf ltac:(done) ltac:(done))).
      rewrite (run_bind_ok _ _ _ _ _ (subscript_ok _ _ _ _ Hz)).
      simpl. rewrite <- app_assoc. reflexivity.
    + rewrite (run_bind_ok _ _ _ _ _
                 (pull_failed_run f "wrong_hash" failed
                    (State (dev_pull dev f (fs st)) (stdin st) (out st ++ [AdbPull f]))
                    size sha1 Hf ltac:(done) ltac:(done))).
      rewrite (run_bind_ok _ _ _ _ _ (subscript_ok _ _ _ _ Hz)).
      simpl. rewrite <- app_assoc. reflexivity.
    + rewrite decide_False by (intros ?; done).
      rewrite (run_bind_ok _ _ _ _ _ (ret_run failed _)).
      rewrite (run_bind_ok _ _ _ _ _ (subscript_ok _ _ _ _ Hz)). reflexivity.
  - rewrite decide_True by done. rewrite run_bind. unfold print_error_pull.
    rewrite (run_bind_ok _ _ _ _ _ (emit_run _ _)).
    rewrite decide_False by (intros ?; done).
    rewrite (run_bind_ok _ _ _ _ _ (ret_run () _)).
    rewrite (ret_run (failed ++ [f])).
    rewrite (run_bind_ok _ _ _ _ _ (subscript_ok _ _ _ _ Hz)).
    simpl. rewrite <- app_assoc. reflexivity.
Qed.

Lemma pull_handler_inv (f pull_status : string) (failed failed2 : list string)
    (st st2 : state) :
  (if decide (pull_status ≠ "success") then
     print_error_pull f pull_status ;;
     (if decide (pull_status ≠ "not_pulled") then delete_files [f] else mret ()) ;;
     mret (failed ++ [f])
   else mret failed) st = (inr failed2, st2) →
  failed `prefix_of` failed2 ∧ out st `prefix_of` out st2.
Proof.
  destruct (decide (pull_status ≠ "success")); [|by intros [= <- <-]].
  unfold print_error_pull. rewrite (run_bind_ok _ _ _ _ _ (emit_run _ _)).
  intros H. apply run_bind_inv in H as [(e & _ & ?)|([] & st1 & Hd & H)]; [done|].
  injection H as <- <-. split; [by apply prefix_app_r|].
  assert (out st1 = out st ++ [PrintPullError f pull_status
                                 (bool_decide (pull_status ≠ "not_pulled"))]) as ->.
  { destruct (decide (pull_status ≠ "not_pulled")).
    - by apply delete_files_run in Hd as (_ & _ & ->).
    - by injection Hd as <-. }
  by apply prefix_app_r.
Qed.

Lemma pull_loop_returns (dev : device) (sizes : gmap string Z) (files : list string) :
  ∀ failed st r st',
    pull_loop dev sizes files failed st = (inr r, st') →
    failed `prefix_of` r ∧ out st `prefix_of` out st'
    ∧ ∀ f, f ∈ files → AdbPull f ∈ out st'.
Proof.
  induction files as [|f rest IH]; intros failed st r st' H.
  - injection H as <- <-. split; [done|]. split; [done|].
    intros f Hf. by apply elem_of_nil in Hf.
  - rewrite pull_loop_cons in H.
    apply run_bind_inv in H as [(e & _ & ?)|(status & st1 & Hpf & H)]; [done|].
    apply pull_file_state in Hpf as ->.
    apply run_bind_inv in H as [(e & _ & ?)|(failed2 & st2 & Hh & H)]; [done|].
    apply pull_handler_inv in Hh as [Hfailed Hout]. simpl in Hout.
    apply run_bind_inv in H as [(e & _ & ?)|(z & st3 & Hz & H)]; [done|].
    apply (readonly_run _ _ _ _ (readonly_subscript _ _)) in Hz as ->.
    apply IH in H as (Hr & Ho & Hall).
    split; [by etrans|]. split.
    + etrans; [|exact Ho]. etrans; [|exact Hout]. by apply prefix_app_r.
    + intros g Hg. apply elem_of_cons in Hg as [->|Hg]; [|by apply Hall].
      assert (Hpre : (out st ++ [AdbPull f]) `prefix_of` out st') by by etrans.
      destruct Hpre as [k ->]. apply elem_of_app. left. apply elem_of_app. right. by left.
Qed.


(** C6 as amended: when the [adb pull] command exits with status 0, a
    transfer that leaves nothing at the local path is classified
    [not_pulled] and nothing is deleted; one that leaves a file of another
    size than the remote one is classified [wrong_size] and the file is
    deleted; one that leaves a file of the right size and another digest
    is classified [wrong_hash] and the file is deleted; one that leaves a
    file of the right size and digest is classified [success] and the file
    is kept; and one that leaves a directory at the local path is not
    classified: [pull_file] raises and the loop of [main] stops there.
    Every outcome other than [success] is printed as an error and the
    file is added to the failed files; the loop goes on with the next
    file, returns the failed files when no file is left, and never drops
    a failed file. *)
Theorem pull_outcome_classified (dev : device) (sizes : gmap string Z) (f : string)
    (rest failed : list string) (st : state) (z : Z) :
  sizes !! f = Some z → dev_pull_status dev f (fs st) = 0 →
  let m' := dev_pull dev f (fs st) in
  let pulled := State m' (stdin st) (out st ++ [AdbPull f]) in
  let reported pull_status deleting m :=
    State m (stdin st) (out st ++ [AdbPull f; PrintPullError f pull_status deleting]) in
  let bug := TypeError "exceptions must derive from BaseException" in
  (m' !! f = None →
     pull_file dev f st = (inr "not_pulled", pulled)
     ∧ pull_loop dev sizes (f :: rest) failed st
       = pull_loop dev sizes rest (failed ++ [f]) (reported "not_pulled" false m'))
  ∧ (∀ size sha1, m' !! f = Some (File size sha1) → dev_file_size dev f ≠ size →
       pull_file dev f st = (inr "wrong_size", pulled)
       ∧ pull_loop dev sizes (f :: rest) failed st
         = pull_loop dev sizes rest (failed ++ [f]) (reported "wrong_size" true (delete f m')))
  ∧ (∀ size sha1, m' !! f = Some (File size sha1) → dev_file_size dev f = size →
       dev_sha1sum dev f ≠ sha1 →
       pull_file dev f st = (inr "wrong_hash", pulled)
       ∧ pull_loop dev sizes (f :: rest) failed st
         = pull_loop dev sizes rest (failed ++ [f]) (reported "wrong_hash" true (delete f m')))
  ∧ (∀ size sha1, m' !! f = Some (File size sha1) → dev_file_size dev f = size →
       dev_sha1sum dev f = sha1 →
       pull_file dev f st = (inr "success", pulled)
       ∧ pull_loop dev sizes (f :: rest) failed st = pull_loop dev sizes rest failed pulled)
  ∧ (m' !! f = Some Dir →
       pull_file dev f st = (inl bug, pulled)
       ∧ pull_loop dev sizes (f :: rest) failed st = (inl bug, pulled))
  ∧ (∀ failed0 st0, pull_loop dev sizes [] failed0 st0 = (inr failed0, st0))
  ∧ (∀ files failed0 st0 r st',
       pull_loop dev sizes files failed0 st0 = (inr r, st') → failed0 `prefix_of` r).
Proof.
  intros Hz Hexit m' pulled reported bug.
  pose proof (pull_file_run dev f st) as Hpf.
  pose proof (pull_loop_step dev sizes f rest failed st z Hz Hexit) as Hstep.
  cbv zeta in Hpf, Hstep. rewrite decide_False in Hpf by (by intros ?).
  fold m' in Hpf, Hstep. fold pulled in Hpf, Hstep.
  repeat split.
  - rewrite Hpf, H. reflexivity.
  - rewrite Hstep, H. reflexivity.
  - rewrite Hpf, H. by rewrite decide_True.
  - rewrite Hstep, H. by rewrite decide_True.
  - rewrite Hpf, H. rewrite decide_False by (intros ?; done). by rewrite decide_True.
  - rewrite Hstep, H. rewrite decide_False by (intros ?; done). by rewrite decide_True.
  - rewrite Hpf, H. by rewrite !decide_False by (intros ?; done).
  - rewrite Hstep, H. by rewrite !decide_False by (intros ?; done).
  - rewrite Hpf, H. reflexivity.
  - rewrite Hstep, H. reflexivity.
  - intros files failed0 st0 r st' Hrun. by apply pull_loop_returns in Hrun as (? & _).
Qed.

(** ** Intermediate directories *)

Lemma append_cons (c : ascii) (s1 s2 : string) :
  String c s1 +:+ s2 = String c (s1 +:+ s2).
Proof. reflexivity. Qed.

Lemma append_nil_r (s : string) : s +:+ "" = s.
Proof. induction s as [|c s IH]; [reflexivity|]. by rewrite append_cons, IH. Qed.

Lemma append_assoc (s1 s2 s3 : string) : (s1 +:+ s2) +:+ s3 = s1 +:+ (s2 +:+ s3).
Proof. induction s1 as [|c s1 IH]; [reflexivity|]. by rewrite !append_cons, IH. Qed.

Lemma rev_app_append (s1 s2 : string) :
  String.rev_app s1 s2 = String.rev_app s1 "" +:+ s2.
Proof.
  revert s2. induction s1 as [|c s1 IH]; intros s2; [reflexivity|].
  cbn [String.rev_app]. rewrite (IH (String c s2)), (IH (String c "")).
  by rewrite append_assoc.
Qed.

Lemma rev_rev_app (a cur : string) :
  String.rev (String.rev_app a cur) = String.rev cur +:+ a.
Proof.
  revert cur. induction a as [|c a IH]; intros cur.
  - by rewrite append_nil_r.
  - cbn [String.rev_app]. rewrite IH. unfold String.rev. cbn [String.rev_app].
    rewrite (rev_app_append cur (String c "")). by rewrite append_assoc.
Qed.

Lemma elem_of_parents_go (cur p q : string) :
  q ∈ os.parents_go cur p ↔ ∃ a b, p = a +:+ String "/" b ∧ q = String.rev cur +:+ a.
Proof.
  revert cur. induction p as [|c p IH]; intros cur.
  - split; [by intros ?%elem_of_nil|]. intros ([|? ?] & b & ? & _); done.
  - cbn [os.parents_go]. destruct (Ascii.eqb_spec c "/") as [->|Hc].
    + rewrite elem_of_cons, IH. split.
      * intros [->|(a & b & -> & ->)].
        -- exists "", p. by rewrite append_nil_r.
        -- exists (String "/" a), b. split; [done|].
           unfold String.rev. cbn [String.rev_app].
           rewrite (rev_app_append cur (String "/" "")). by rewrite append_assoc.
      * intros ([|c' a] & b & Hp & ->).
        -- left. by rewrite append_nil_r.
        -- right. rewrite append_cons in Hp. injection Hp as <- ->.
           exists a, b. split; [done|].
           unfold String.rev. cbn [String.rev_app].
           rewrite (rev_app_append cur (String "/" "")). by rewrite append_assoc.
    + rewrite IH. split.
      * intros (a & b & -> & ->). exists (String c a), b. split; [done|].
        unfold String.rev. cbn [String.rev_app].
        rewrite (rev_app_append cur (String c "")). by rewrite append_assoc.
      * intros ([|c' a] & b & Hp & ->).
        -- injection Hp as -> _. done.
        -- rewrite append_cons in Hp. injection Hp as <- ->.
           exists a, b. split; [done|].
           unfold String.rev. cbn [String.rev_app].
           rewrite (rev_app_append cur (String c "")). by rewrite append_assoc.
Qed.

Lemma elem_of_parents (p q : string) :
  q ∈ os.parents p ↔ ∃ b, p = q +:+ String "/" b.
Proof.
  unfold os.parents. rewrite elem_of_parents_go. split.
  - intros (a & b & -> & ->). by exists b.
  - intros (b & ->). by exists q, b.
Qed.


Lemma grows_in_refl (paths : list string) (m : gmap string node) : grows_in paths m m.
Proof. intros p. by left. Qed.

Lemma grows_in_trans (paths : list string) (m1 m2 m3 : gmap string node) :
  grows_in paths m1 m2 → grows_in paths m2 m3 → grows_in paths m1 m3.
Proof.
  intros H12 H23 p. destruct (H12 p) as [E12|(I1 & N1 & D2)], (H23 p) as [E23|(I2 & N2 & D3)].
  - left. congruence.
  - right. split; [done|]. split; congruence.
  - right. split; [done|]. split; congruence.
  - congruence.
Qed.

Lemma makedirs_grows_in (p : string) (st : state) (r : exn + unit) (st' : state) :
  os.makedirs p st = (r, st') → grows_in (os.parents p ++ [p]) (fs st) (fs st').
Proof.
  unfold os.makedirs. intros Hrun.
  eapply (for_each_inv (λ s s', grows_in (os.parents p ++ [p]) (fs s) (fs s'))
            (λ _ _, True)) in Hrun as [HR _]; [done| | | |].
  - intros s. apply grows_in_refl.
  - intros s1 s2 s3. apply grows_in_trans.
  - done.
  - intros q s r' s' Hq Hmk. split; [|done].
    unfold os.mkdir_exist_ok in Hmk. rewrite run_bind in Hmk. unfold get_fs in Hmk.
    cbv beta iota in Hmk.
    destruct (fs s !! q) as [[size sha1|]|] eqn:Hsq; injection Hmk as _ <-;
      try apply grows_in_refl.
    intros x. cbn [fs]. destruct (decide (q = x)) as [<-|Hne].
    + right. split; [done|]. split; [done|]. apply lookup_insert_eq.
    + left. by apply lookup_insert_ne.
Qed.

Lemma grows_in_mono (paths paths' : list string) (m m' : gmap string node) :
  paths ⊆ paths' → grows_in paths m m' → grows_in paths' m m'.
Proof.
  intros Hsub H p. destruct (H p) as [E|(I & N & D)]; [by left|].
  right. split; [by apply Hsub|done].
Qed.

(** [create_all_directories] adds directories only, each of them a
    directory it was given or an intermediate directory of one. *)
Lemma create_all_directories_grows_in (dirs : list string) (st : state)
    (r : exn + unit) (st' : state) :
  create_all_directories dirs st = (r, st') →
  ∀ p, fs st' !! p = fs st !! p
       ∨ (fs st !! p = None ∧ fs st' !! p = Some Dir
          ∧ ∃ d, d ∈ dirs ∧ (p = d ∨ p ∈ os.parents d)).
Proof.
  intros Hrun.
  assert (Hg : grows_in (dirs ≫= λ d, os.parents d ++ [d]) (fs st) (fs st')).
  { unfold create_all_directories in Hrun.
    eapply (for_each_inv
              (λ s s', grows_in (dirs ≫= λ d, os.parents d ++ [d]) (fs s) (fs s'))
              (λ _ _, True)) in Hrun as [HR _]; [done| | | |].
    - intros s. apply grows_in_refl.
    - intros s1 s2 s3. apply grows_in_trans.
    - done.
    - intros d s r' s' Hd. cbv beta zeta.
      rewrite filename2osformat_id, run_bind. unfold get_fs. cbv beta iota.
      apply (proj1 (elem_of_sorted _ _)) in Hd.
      destruct (negb (os.exists_ (fs s) d)).
      + intros Hmk. split; [|done]. eapply grows_in_mono; [|by eapply makedirs_grows_in].
        intros q Hq. apply list_elem_of_bind. eauto.
      + destruct (negb (os.isdir (fs s) d)); intros [= _ <-]; (split; [apply grows_in_refl|done]). }
  intros p. destruct (Hg p) as [E|(I & N & D)]; [by left|]. right.
  split; [done|]. split; [done|].
  apply list_elem_of_bind in I as (d & Hp & Hd). exists d. split; [done|].
  apply elem_of_app in Hp as [Hp|Hp%list_elem_of_singleton]; auto.
Qed.




(** ** The order of [main] *)

Lemma shrinks_dir (files : list string) (m m' : gmap string node) (p : string) :
  shrinks files m m' → m !! p = Some Dir → m' !! p = Some Dir.
Proof.
  intros H Hp. destruct (H p) as [E|(_ & I & _)]; [congruence|].
  unfold os.isfile in I. by rewrite Hp in I.
Qed.

Lemma main_passes (args : arguments) (dev : device) (st : state) :
  adb_path_is_file args = true → dst_path_is_dir args = true →
  dev_connected dev = true → dev_path_type dev ≠ "none" →
  main args dev st
  = ((if decide (dev_path_type dev = "file")
      then single_file (Str.basename (src_path args))
      else get_missing_and_existing_files dev) ≫= main_from_lists args dev) st.
Proof.
  intros Hadb Hdst Hconn Htype. unfold main. rewrite Hadb, Hdst, Hconn. cbn [negb].
  rewrite (run_bind_ok _ _ _ _ _ (ret_run (dev_path_type dev) st)).
  by rewrite decide_False.
Qed.








(** ** The listing of the destination *)

Lemma fmap_formats (l : list string) :
  filename2linuxformat <$> (filename2osformat <$> l) = l.
Proof.
  induction l as [|x l IH]; [reflexivity|].
  rewrite !fmap_cons, IH, filename2osformat_id, filename2linuxformat_id. reflexivity.
Qed.

Lemma local_dirs_listing (m : gmap string node) (d : string) :
  d ∈ local_dirs (get_dst_all_files_and_dirs m) ↔ m !! d = Some Dir.
Proof.
  unfold local_dirs, get_dst_all_files_and_dirs. simpl. rewrite fmap_formats.
  rewrite elem_of_list_to_set, list_elem_of_fmap. split.
  - intros ([k n] & -> & Hin). apply list_elem_of_filter in Hin as [Hn Hin].
    simpl in *. subst n. by apply elem_of_map_to_list in Hin.
  - intros Hd. exists (d, Dir). split; [done|].
    apply list_elem_of_filter. split; [done|]. by apply elem_of_map_to_list.
Qed.

Lemma local_files_listing (m : gmap string node) (f : string) :
  f ∈ local_files (get_dst_all_files_and_dirs m) ↔ os.isfile m f = true.
Proof.
  unfold local_files, get_dst_all_files_and_dirs, os.isfile. simpl. rewrite fmap_formats.
  rewrite elem_of_list_to_set, list_elem_of_fmap. split.
  - intros ([k n] & -> & Hin). apply list_elem_of_filter in Hin as [Hn Hin].
    simpl in *. apply elem_of_map_to_list in Hin. rewrite Hin. by destruct n.
  - intros Hf. destruct (m !! f) as [[size sha1|]|] eqn:Hm; [|done..].
    exists (f, File size sha1). split; [done|].
    apply list_elem_of_filter. split; [done|]. by apply elem_of_map_to_list.
Qed.

(** The lists [main] works on: the existing files are local files and
    the missing directories are not local directories. *)
Lemma lists_sound (args : arguments) (dev : device) (st st' : state)
    (mf ef md ed : list string) :
  (if decide (dev_path_type dev = "file")
   then single_file (Str.basename (src_path args))
   else get_missing_and_existing_files dev) st = (inr (mf, ef, md, ed), st') →
  (∀ f, f ∈ ef → os.isfile (fs st) f = true)
  ∧ (∀ d, d ∈ md → fs st !! d ≠ Some Dir)
  ∧ NoDup ef.
Proof.
  destruct (decide (dev_path_type dev = "file")).
  - unfold single_file. rewrite filename2osformat_id, run_bind. unfold get_fs. cbv beta iota.
    destruct (os.exists_ (fs st) _); [|intros [= <- <- <- <- _]].
    + destruct (os.isfile (fs st) _) eqn:Hfile; [|done]. intros [= <- <- <- <- _].
      split; [|split].
      * intros f Hf%list_elem_of_singleton. by subst.
      * intros d Hd. by apply elem_of_nil in Hd.
      * apply NoDup_singleton.
    + split; [|split].
      * intros f Hf. by apply elem_of_nil in Hf.
      * intros d Hd. by apply elem_of_nil in Hd.
      * apply NoDup_nil_2.
  - unfold get_missing_and_existing_files, get_src_all_files_and_dirs.
    rewrite (run_bind_ok _ _ _ _ _ (ret_run _ _)). rewrite run_bind.
    unfold get_fs, lift. cbv beta iota. intros [= Hcmp _].
    apply reconcile_lists in Hcmp as (Hef & Hmd & Hnd).
    split; [|split; [|done]].
    + intros f Hf. apply local_files_listing.
      assert (Hin : f ∈ (list_to_set ef : gset string)) by by apply elem_of_list_to_set.
      rewrite Hef in Hin. by apply elem_of_intersection in Hin as [_ ?].
    + intros d Hd Hdir. apply local_dirs_listing in Hdir.
      assert (Hin : d ∈ (list_to_set md : gset string)) by by apply elem_of_list_to_set.
      rewrite Hmd in Hin. by apply elem_of_difference in Hin as [_ ?].
Qed.

(** C8: when the source is a regular file, [main] compares the one local
    path of that name and lists nothing: the file is the one existing
    file when that path is a local file, the one missing file when
    nothing is at that path, and [main] raises a [TypeError] when that
    path is a local directory. *)
Theorem single_file_mode (args : arguments) (dev : device) (st : state) :
  adb_path_is_file args = true → dst_path_is_dir args = true →
  dev_connected dev = true → dev_path_type dev = "file" →
  let filename := Str.basename (src_path args) in
  (∀ size sha1, fs st !! filename = Some (File size sha1) →
     single_file filename st = (inr ([], [filename], [], []), st)
     ∧ main args dev st = main_from_lists args dev ([], [filename], [], []) st)
  ∧ (fs st !! filename = Some Dir →
       main args dev st
       = (inl (TypeError (filename +:+ " should be a file, but it is a directory. Aborting...")),
          st))
  ∧ (fs st !! filename = None →
       single_file filename st = (inr ([filename], [], [], []), st)
       ∧ main args dev st = main_from_lists args dev ([filename], [], [], []) st).
Proof.
  intros Hadb Hdst Hconn Htype filename.
  assert (Hmain : main args dev st = (single_file filename ≫= main_from_lists args dev) st).
  { unfold main. rewrite Hadb, Hdst, Hconn. cbn [negb].
    rewrite (run_bind_ok _ _ _ _ _ (ret_run (dev_path_type dev) st)).
    rewrite Htype. reflexivity. }
  assert (Hsf : single_file filename st
                = match fs st !! filename with
                  | Some (File _ _) => (inr ([], [filename], [], []), st)
                  | Some Dir =>
                      (inl (TypeError
                              (filename +:+ " should be a file, but it is a directory. Aborting...")),
                       st)
                  | None => (inr ([filename], [], [], []), st)
                  end).
  { unfold single_file. rewrite filename2osformat_id, run_bind. unfold get_fs. cbv beta iota.
    unfold os.exists_, os.isfile. by destruct (fs st !! filename) as [[]|]. }
  rewrite Hmain, run_bind, Hsf.
  split; [|split].
  - intros size sha1 ->. done.
  - intros ->. done.
  - intros ->. done.
Qed.

(** ** Verification inside [main] *)




(** ** Runs that verify *)

(** The verification block once it has returned: the faulty files are
    gone when the deletion was approved, and nothing else has changed. *)
Lemma verify_and_delete_returns (args : arguments) (dev : device)
    (existing_files bad : list string) (st st' : state) :
  verify_and_delete args dev existing_files st = (inr bad, st') →
  bad = filter (λ f, faultyb dev (fs st) f = true) existing_files
  ∧ ∀ p, fs st' !! p
         = if approved args st && bool_decide (p ∈ bad) then None else fs st !! p.
Proof.
  intros Hrun. unfold verify_and_delete in Hrun.
  rewrite (run_bind_ok _ _ _ _ _ (emit_run _ _)) in Hrun.
  apply run_bind_inv in Hrun as [(e & _ & ?)|(bad0 & st1 & Hv & Hrun)]; [done|].
  apply verify_returns in Hv as (-> & -> & Hfiles). cbn [fs] in *.
  rewrite (run_bind_ok _ _ _ _ _ (emit_run _ _)) in Hrun.
  set (bad0 := filter _ existing_files) in *.
  apply run_bind_inv in Hrun as [(e & _ & ?)|(confirmed & st2 & Hc & Hrun)]; [done|].
  assert (Hst2 : fs st2 = fs st
                 ∧ confirmed = bool_decide (bad0 ≠ []) && approved args st).
  { unfold approved. destruct (decide (bad0 ≠ [])) as [Hne|He].
    - rewrite (bool_decide_eq_true_2 _ Hne). destruct (yes args).
      + by injection Hc as <- <-.
      + unfold ask_user_yes_no in Hc. cbn [stdin fs out] in Hc.
        destruct (stdin st) as [|answer rest]; [done|]. by injection Hc as <- <-.
    - rewrite (bool_decide_eq_false_2 _ He). by injection Hc as <- <-. }
  destruct Hst2 as [E Hconf].
  apply run_bind_inv in Hrun as [(e & _ & ?)|([] & st3 & Hd & Hrun)]; [done|].
  injection Hrun as <- <-. split; [done|]. intros p.
  destruct confirmed.
  - rewrite (run_bind_ok _ _ _ _ _ (emit_run _ _)) in Hd.
    destruct (proj2 (delete_files_spec bad0 _) _ Hd) as (_ & _ & Hfs). cbn [fs] in Hfs.
    rewrite Hfs, E. symmetry in Hconf. apply andb_true_iff in Hconf as [_ ->].
    cbn [andb]. destruct (decide (p ∈ bad0)) as [Hp|Hp].
    + by rewrite (bool_decide_eq_true_2 _ Hp).
    + by rewrite (bool_decide_eq_false_2 _ Hp).
  - injection Hd as <-. rewrite E. symmetry in Hconf.
    apply andb_false_iff in Hconf as [Hb| ->]; [|done].
    apply bool_decide_eq_false, dec_stable in Hb. rewrite Hb.
    rewrite (bool_decide_eq_false_2 (p ∈ [])) by apply not_elem_of_nil.
    by rewrite andb_false_r.
Qed.

(** A run with [--verify], from the four lists on. *)
Lemma main_from_lists_verify (args : arguments) (dev : device) (mf ef md ed : list string)
    (st : state) (r : exn + unit) (st' : state) :
  verify_flag args = true →
  (∀ f, f ∈ ef → os.isfile (fs st) f = true) →
  main_from_lists args dev (mf, ef, md, ed) st = (r, st') →
  (∀ p, fs st' !! p = fs st !! p
        ∨ (fs st !! p = None ∧ fs st' !! p = Some Dir
           ∧ ∃ d, d ∈ md ∧ (p = d ∨ p ∈ os.parents d))
        ∨ (fs st' !! p = None ∧ approved args st = true
           ∧ p ∈ ef ∧ faulty dev (fs st) p))
  ∧ ∃ rD stD,
      create_all_directories md (listed mf md st) = (rD, stD)
      ∧ (∀ p, fs stD !! p = fs st !! p
              ∨ (fs st !! p = None ∧ fs stD !! p = Some Dir
                 ∧ ∃ d, d ∈ md ∧ (p = d ∨ p ∈ os.parents d)))
      ∧ match rD with
        | inl e => r = inl e ∧ st' = stD
        | inr _ =>
            (∀ d, d ∈ md → fs stD !! d = Some Dir ∧ fs st' !! d = Some Dir)
            ∧ (verify_and_delete args dev ef ≫= λ _, mret ()) stD = (r, st')
            ∧ (r = inr () →
               ∀ p, fs st' !! p
                    = if approved args st && bool_decide (p ∈ ef) && faultyb dev (fs st) p
                      then None else fs stD !! p)
        end.
Proof.
  intros Hv Hfiles. unfold main_from_lists.
  rewrite (run_bind_ok _ _ _ _ _ (emit_run _ _)).
  rewrite (run_bind_ok _ _ _ _ _ (emit_run _ _)).
  cbn [fs stdin out]. rewrite <- app_assoc. cbn [app]. fold (listed mf md st).
  rewrite Hv. cbn [orb]. rewrite run_bind.
  destruct (create_all_directories md (listed mf md st)) as [[e|[]] stD] eqn:Hmk.
  { intros [= <- <-].
    pose proof (create_all_directories_grows_in _ _ _ _ Hmk) as Hg. cbn [fs listed] in Hg.
    split.
    - intros p. destruct (Hg p) as [E|N]; [by left|right; by left].
    - by exists (inl e), stD. }
  pose proof (create_all_directories_grows_in _ _ _ _ Hmk) as Hg. cbn [fs listed] in Hg.
  apply create_all_directories_run in Hmk as [(_ & Hin & _) Hdirs].
  cbn [stdin listed] in Hin. specialize (Hdirs eq_refl). intros Hrun.
  assert (Happ : approved args stD = approved args st) by (unfold approved; by rewrite Hin).
  assert (Hkept : ∀ f, f ∈ ef → fs stD !! f = fs st !! f).
  { intros f Hf. specialize (Hfiles f Hf). unfold os.isfile in Hfiles.
    destruct (Hg f) as [E|(N & _)]; [done|]. by rewrite N in Hfiles. }
  assert (Hframe : ∃ rv, verify_and_delete args dev ef stD = (rv, st')).
  { rewrite run_bind in Hrun.
    destruct (verify_and_delete args dev ef stD) as [[e|bad] stV]; injection Hrun as _ <-; eauto. }
  destruct Hframe as [rv Hvd].
  pose proof (verify_and_delete_run _ _ _ _ _ _ Hvd) as [Hfs _]. split.
  - intros p. destruct Hfs as [E|[Hconf S]].
    + rewrite E. destruct (Hg p) as [E'|N]; [by left|right; by left].
    + destruct (S p) as [E|(Hbad & Hfile & Hnone)].
      * rewrite E. destruct (Hg p) as [E'|N]; [by left|right; by left].
      * right. right. apply list_elem_of_filter in Hbad as [Hbad Hp].
        apply faultyb_spec in Hbad. unfold faulty in *. rewrite (Hkept p Hp) in Hbad.
        split; [done|]. split; [|done]. rewrite <- Happ. unfold approved.
        destruct Hconf as [->|(answer & rest & -> & ->)]; [done|]. apply orb_true_r.
  - exists (inr ()), stD. split; [done|]. split; [done|]. split; [|split; [done|]].
    + intros d Hd. split; [by apply Hdirs|]. destruct Hfs as [E|[_ S]].
      * rewrite E. by apply Hdirs.
      * eapply shrinks_dir; [exact S|]. by apply Hdirs.
    + intros ->. rewrite run_bind in Hrun. rewrite Hvd in Hrun.
      destruct rv as [e|bad]; [done|].
      apply verify_and_delete_returns in Hvd as [Hbad Hform].
      intros p. rewrite Hform, Happ. destruct (approved args st); [|done]. cbn [andb].
      destruct (decide (p ∈ ef)) as [Hp|Hp].
      * rewrite (bool_decide_eq_true_2 _ Hp). cbn [andb].
        assert (Hfb : faultyb dev (fs stD) p = faultyb dev (fs st) p).
        { unfold faultyb. by rewrite (Hkept p Hp). }
        rewrite <- Hfb. destruct (faultyb dev (fs stD) p) eqn:Hb.
        -- rewrite bool_decide_eq_true_2; [done|]. rewrite Hbad. by apply list_elem_of_filter.
        -- rewrite bool_decide_eq_false_2; [done|]. rewrite Hbad.
           intros [? _]%list_elem_of_filter. congruence.
      * rewrite (bool_decide_eq_false_2 _ Hp). cbn [andb].
        rewrite bool_decide_eq_false_2; [done|]. rewrite Hbad.
        by intros [_ ?]%list_elem_of_filter.
Qed.

(** C10 as amended: a run with [--verify] sends no [adb pull] and changes
    the destination in two ways only. It makes the missing directories,
    with their intermediate directories and no other, and it does so
    before the verification starts; and it deletes the existing files
    that verification found faulty when the deletion is approved, by
    [--yes] or by a yes at the prompt: once such a run has returned, the
    faulty files are gone, all of them when the deletion was approved and
    none of them otherwise. Every other path is as before. *)
Theorem verify_only_run (args : arguments) (dev : device) (st : state)
    (r : exn + unit) (st' : state) :
  verify_flag args = true →
  main args dev st = (r, st') →
  (∀ f, AdbPull f ∈ out st' → AdbPull f ∈ out st)
  ∧ (∀ p, fs st' !! p = fs st !! p
          ∨ (fs st !! p = None ∧ fs st' !! p = Some Dir
             ∧ ∃ mf ef md ed d,
                 lists_of args dev st = (inr (mf, ef, md, ed), st)
                 ∧ d ∈ md ∧ (p = d ∨ p ∈ os.parents d))
          ∨ (fs st' !! p = None ∧ approved args st = true
             ∧ ∃ mf ef md ed,
                 lists_of args dev st = (inr (mf, ef, md, ed), st)
                 ∧ p ∈ ef ∧ faulty dev (fs st) p))
  ∧ (adb_path_is_file args = true → dst_path_is_dir args = true →
     dev_connected dev = true → dev_path_type dev ≠ "none" →
     ∀ mf ef md ed,
       lists_of args dev st = (inr (mf, ef, md, ed), st) →
       ∃ rD stD,
         create_all_directories md (listed mf md st) = (rD, stD)
         ∧ (∀ p, fs stD !! p = fs st !! p
                 ∨ (fs st !! p = None ∧ fs stD !! p = Some Dir
                    ∧ ∃ d, d ∈ md ∧ (p = d ∨ p ∈ os.parents d)))
         ∧ match rD with
           | inl e => r = inl e ∧ st' = stD
           | inr _ =>
               (∀ d, d ∈ md → fs st !! d ≠ Some Dir ∧ fs stD !! d = Some Dir
                                ∧ fs st' !! d = Some Dir)
               ∧ (verify_and_delete args dev ef ≫= λ _, mret ()) stD = (r, st')
               ∧ (r = inr () →
                  ∀ p, fs st' !! p
                       = if approved args st && bool_decide (p ∈ ef)
                            && faultyb dev (fs st) p
                         then None else fs stD !! p)
           end).
Proof.
  intros Hv Hrun. split; [by eapply nap_main_verify|].
  assert (Hearly : ∀ msg, print_error msg st = (r, st') → fs st' = fs st).
  { by intros msg [= _ <-]. }
  split.
  - revert Hrun. unfold main.
    destruct (negb (adb_path_is_file args)); [intros ->%Hearly p; by left|].
    destruct (negb (dst_path_is_dir args)); [intros ->%Hearly p; by left|].
    destruct (negb (dev_connected dev)); [intros ->%Hearly p; by left|].
    rewrite (run_bind_ok _ _ _ _ _ (ret_run (dev_path_type dev) st)).
    destruct (decide (dev_path_type dev = "none")); [intros ->%Hearly p; by left|].
    rewrite run_bind. fold (lists_of args dev).
    destruct (lists_of args dev st) as [[e|[[[mf ef] md] ed]] stL] eqn:Hlists.
    { apply (readonly_run _ _ _ _ (readonly_lists _ _ _)) in Hlists as ->.
      intros [= _ <-] p. by left. }
    pose proof (readonly_run _ _ _ _ (readonly_lists _ _ _) Hlists) as ->.
    destruct (lists_sound _ _ _ _ _ _ _ _ Hlists) as (Hef & _ & _).
    intros Hrun. destruct (main_from_lists_verify _ _ _ _ _ _ _ _ _ Hv Hef Hrun) as [Hp _].
    intros p. destruct (Hp p) as [E|[(N & D & d & Hd & Hpd)|(N & Ha & Hpe & Hf)]].
    + by left.
    + right. left. split; [done|]. split; [done|]. by exists mf, ef, md, ed, d.
    + right. right. split; [done|]. split; [done|]. by exists mf, ef, md, ed.
  - intros Hadb Hdst Hconn Htype mf ef md ed Hlists.
    rewrite (main_passes _ _ _ Hadb Hdst Hconn Htype) in Hrun.
    fold (lists_of args dev) in Hrun. rewrite (run_bind_ok _ _ _ _ _ Hlists) in Hrun.
    destruct (lists_sound _ _ _ _ _ _ _ _ Hlists) as (Hef & Hmd & _).
    destruct (main_from_lists_verify _ _ _ _ _ _ _ _ _ Hv Hef Hrun)
      as [_ (rD & stD & Hmk & Hg & Hcase)].
    exists rD, stD. split; [done|]. split; [done|].
    destruct rD as [e|[]]; [done|]. destruct Hcase as (Hdirs & Hvd & Hform).
    split; [|done]. intros d Hd. destruct (Hdirs d Hd). auto.
Qed.

(** ** Runs on the scene *)

(** C1: the run with [--verify --auto --yes] on the destination whose
    [f2] has the wrong digest reports [f2] as faulty and deletes it, and
    then returns: no [adb pull] is sent and [f2] stays deleted. The same
    run without [--verify] goes on and pulls [f2] again. *)
Theorem verify_with_auto_stops_after_verification :
  main (run_args false true true true) phone (State damaged [] [])
  = (inr (),
     State {[ "dirA" := Dir ]} []
           [PrintMissingFiles ["dirA/f1"]; PrintMissingDirs ["dirA"]; PrintChecking;
            PrintFaulty ["f2"]; PrintDeleting])
  ∧ main (run_args false false true true) phone (State damaged [] [])
    = (inr (),
       State remote_tree []
             [PrintMissingFiles ["dirA/f1"]; PrintMissingDirs ["dirA"]; PrintChecking;
              PrintFaulty ["f2"]; PrintDeleting; PrintEstimate 150;
              AdbPull "dirA/f1"; AdbPull "f2"; PrintResult 2 0 []]).
Proof. split; vm_compute; reflexivity. Qed.

(** C2: with [a] a file on the device and a directory in the
    destination, [get_missing_and_existing_files] raises nothing and
    returns [a] as a missing file; [main] goes on to send [adb pull] for
    [a] and fails only after it. *)
Theorem type_conflict_not_detected :
  compare_listings (Listing ["a"] []) (Listing [] ["a"]) = inr (["a"], [], [], [])
  ∧ get_missing_and_existing_files phone_a (State dir_a [] [])
    = (inr (["a"], [], [], []), State dir_a [] [])
  ∧ main (run_args false false false false) phone_a (State dir_a [] [])
    = (inl (TypeError "exceptions must derive from BaseException"),
       State dir_a []
             [PrintMissingFiles ["a"]; PrintMissingDirs []; PrintEstimate 10; AdbPull "a"]).
Proof. repeat split; vm_compute; reflexivity. Qed.

(** C10 as stated fails: the run with [--verify --yes] deletes the
    faulty [f2], so the local files are not all kept. *)
Lemma verify_only_deletes_faulty_file :
  verify_flag (run_args false true false true) = true
  ∧ auto_flag (run_args false true false true) = false
  ∧ ¬ keeps_files (run_args false true false true) phone (State damaged [] []).
Proof.
  split; [reflexivity|]. split; [reflexivity|].
  intros H. specialize (H "f2" 50 "BAD" eq_refl). vm_compute in H. discriminate H.
Qed.

(** C6 as stated fails. When [adb pull] exits with a status other than
    0, [run] raises [CalledProcessError]: no local file exists afterwards
    and the transfer is not classified, [main] ends with the exception
    before its report. And when a directory is at the local path, no
    local file exists afterwards either and [pull_file] raises. *)
Lemma failed_pull_not_classified :
  pull_file phone_unreadable "a" (State ∅ [] [])
  = (inl (CalledProcessError 1), State ∅ [] [AdbPull "a"])
  ∧ ¬ not_pulled_when_no_file phone_unreadable "a" (State ∅ [] [])
  ∧ main (run_args false false false false) phone_unreadable (State ∅ [] [])
    = (inl (CalledProcessError 1),
       State ∅ [] [PrintMissingFiles ["a"]; PrintMissingDirs []; PrintEstimate 10; AdbPull "a"])
  ∧ pull_file phone_a "a" (State dir_a [] [])
    = (inl (TypeError "exceptions must derive from BaseException"),
       State dir_a [] [AdbPull "a"])
  ∧ ¬ not_pulled_when_no_file phone_a "a" (State dir_a [] []).
Proof.
  split; [vm_compute; reflexivity|]. split.
  { intros H. specialize (H eq_refl). vm_compute in H. discriminate H. }
  split; [vm_compute; reflexivity|]. split; [vm_compute; reflexivity|].
  intros H. specialize (H eq_refl). vm_compute in H. discriminate H.
Qed.

(** ** The properties at work on the scene *)


Lemma pull_outcome_classified_witness :
  pull_file phone_a "a" (State ∅ [] [])
  = (inr "not_pulled", State ∅ [] [AdbPull "a"])
  ∧ pull_loop phone_a {[ "a" := 10 ]} ["a"] [] (State ∅ [] [])
    = (inr ["a"], State ∅ [] [AdbPull "a"; PrintPullError "a" "not_pulled" false]).
Proof.
  assert (Hz : ({[ "a" := 10 ]} : gmap string Z) !! "a" = Some 10)
    by (vm_compute; reflexivity).
  destruct (pull_outcome_classified phone_a {[ "a" := 10 ]} "a" [] [] (State ∅ [] []) 10
              Hz eq_refl) as (Hnone & _ & _ & _ & _ & Hend & _).
  destruct (Hnone eq_refl) as [Hpf Hloop].
  split; [exact Hpf|]. rewrite Hloop. apply Hend.
Defined.



Lemma single_file_mode_witness :
  main (Args "/sdcard/f2" true true false false false false)
       (Device true "file" (Listing [] []) (dev_file_size phone) (dev_sha1sum phone)
               faithful_pull (λ _ _, 0))
       (State damaged [] [])
  = main_from_lists (Args "/sdcard/f2" true true false false false false)
       (Device true "file" (Listing [] []) (dev_file_size phone) (dev_sha1sum phone)
               faithful_pull (λ _ _, 0))
       ([], ["f2"], [], []) (State damaged [] []).
Proof.
  apply (single_file_mode (Args "/sdcard/f2" true true false false false false)
           (Device true "file" (Listing [] []) (dev_file_size phone) (dev_sha1sum phone)
                   faithful_pull (λ _ _, 0))
           (State damaged [] []) eq_refl eq_refl eq_refl eq_refl) with (size := 50) (sha1 := "BAD").
  vm_compute. reflexivity.
Defined.


Lemma verify_only_run_witness :
  (∀ f, AdbPull f ∈ [PrintMissingFiles ["dirA/f1"]; PrintMissingDirs ["dirA"]; PrintChecking;
                     PrintFaulty ["f2"]; PrintDeleting] → AdbPull f ∈ @nil event)
  ∧ ({[ "dirA" := Dir ]} : gmap string node) !! "dirA" = Some Dir
  ∧ ({[ "dirA" := Dir ]} : gmap string node) !! "f2" = None.
Proof.
  assert (Hrun : main (run_args false true false true) phone (State damaged [] [])
                 = (inr (),
                    State {[ "dirA" := Dir ]} []
                          [PrintMissingFiles ["dirA/f1"]; PrintMissingDirs ["dirA"];
                           PrintChecking; PrintFaulty ["f2"]; PrintDeleting]))
    by (vm_compute; reflexivity).
  assert (Hlists : lists_of (run_args false true false true) phone (State damaged [] [])
                   = (inr (["dirA/f1"], ["f2"], ["dirA"], []), State damaged [] []))
    by (vm_compute; reflexivity).
  destruct (verify_only_run (run_args false true false true) phone _ _ _ eq_refl Hrun)
    as (Hno & _ & Hdirs).
  split; [exact Hno|].
  destruct (Hdirs eq_refl eq_refl eq_refl ltac:(vm_compute; discriminate) _ _ _ _ Hlists)
    as (rD & stD & Hmk & _ & Hcase).
  vm_compute in Hmk. injection Hmk as <- <-.
  destruct Hcase as (Hmd & _ & Hform). split.
  - apply (Hmd "dirA"). left.
  - etrans; [exact (Hform eq_refl "f2")|]. vm_compute. reflexivity.
Defined.

(** * Further properties *)

(** ** Utility functions *)

(** X1: [truncate_list] returns a list of at most 20 members as it is; of
    a longer list it returns the first 20 members followed by one line
    that tells the length of the whole list, 21 members in all. *)
Theorem truncate_list_bounded (lst : list string) :
  (length (truncate_list lst) ≤ 21)%nat
  ∧ ((length lst ≤ 20)%nat → truncate_list lst = lst)
  ∧ ((20 < length lst)%nat →
     length (truncate_list lst) = 21%nat
     ∧ take 20 (truncate_list lst) = take 20 lst
     ∧ last (truncate_list lst) = Some ("... (total: " +:+ pretty (length lst) +:+ ")")).
Proof.
  unfold truncate_list. destruct (decide (20 < length lst)%nat) as [Hlong|Hshort].
  - assert (Hlen : length (take 20 lst) = 20%nat) by (rewrite length_take; lia).
    split; [rewrite length_app, Hlen; simpl; lia|]. split; [lia|]. intros _.
    split; [rewrite length_app, Hlen; simpl; lia|]. split.
    + rewrite take_app_le by lia. rewrite take_ge by lia. reflexivity.
    + apply last_snoc.
  - split; [lia|]. split; [done|]. lia.
Qed.

Lemma truncate_list_bounded_witness :
  truncate_list (replicate 25 "f") = replicate 20 "f" ++ ["... (total: 25)"]
  ∧ take 20 (truncate_list (replicate 25 "f")) = take 20 (replicate 25 "f").
Proof.
  split; [vm_compute; reflexivity|].
  apply (truncate_list_bounded (replicate 25 "f")). vm_compute. lia.
Defined.

Lemma replace_twice (a b : ascii) (s : string) :
  Str.replace b a (Str.replace a b s) = s ↔ a = b ∨ occurs b s = false.
Proof.
  destruct (decide (a = b)) as [->|Hab].
  { rewrite !replace_same. tauto. }
  induction s as [|c s IH]; cbn [Str.replace occurs].
  - tauto.
  - destruct (Ascii.eqb_spec c a) as [->|Hca].
    + rewrite (proj2 (Ascii.eqb_eq b b) eq_refl).
      destruct (Ascii.eqb_spec a b) as [?|_]; [done|]. cbn [orb].
      split.
      * intros [= Hs]. apply IH in Hs. tauto.
      * intros [?|Hs]; [done|]. f_equal. apply IH. by right.
    + destruct (Ascii.eqb_spec c b) as [->|Hcb]; cbn [orb].
      * split; [intros [= ?]; done|]. intros [?|?]; done.
      * split.
        -- intros [= Hs]. apply IH in Hs. tauto.
        -- intros [?|Hs]; [done|]. f_equal. apply IH. by right.
Qed.

(** X2: on a host with path separator [sep], a linux path turned into
    the local format and back is the same path exactly when [sep] is [/]
    or does not occur in the path; and a local path turned into the
    linux format and back is the same exactly when [sep] is [/] or the
    path holds no [/]. Both functions keep the length of the path. *)
Theorem filename_format_round_trip (sep : ascii) (f : string) :
  (filename2linuxformat_on sep (filename2osformat_on sep f) = f
   ↔ sep = "/"%char ∨ occurs sep f = false)
  ∧ (filename2osformat_on sep (filename2linuxformat_on sep f) = f
     ↔ sep = "/"%char ∨ occurs "/" f = false)
  ∧ String.length (filename2osformat_on sep f) = String.length f
  ∧ String.length (filename2linuxformat_on sep f) = String.length f
  ∧ filename2osformat = filename2osformat_on os_path_sep
  ∧ filename2linuxformat = filename2linuxformat_on os_path_sep.
Proof.
  unfold filename2linuxformat_on, filename2osformat_on. split; [|split; [|split; [|split]]].
  - rewrite replace_twice. split; intros [?|?]; auto.
  - rewrite replace_twice. tauto.
  - induction f as [|c f IH]; [done|]. cbn [Str.replace String.length]. by rewrite IH.
  - induction f as [|c f IH]; [done|]. cbn [Str.replace String.length]. by rewrite IH.
  - split; reflexivity.
Qed.

Lemma lower_ascii_y (c : ascii) :
  Str.lower_ascii c = "y"%char → c = "y"%char ∨ c = "Y"%char.
Proof.
  destruct c as [[] [] [] [] [] [] [] []]; vm_compute; intros H;
    first [discriminate H | by left | by right].
Qed.

Lemma lower_ascii_e (c : ascii) :
  Str.lower_ascii c = "e"%char → c = "e"%char ∨ c = "E"%char.
Proof.
  destruct c as [[] [] [] [] [] [] [] []]; vm_compute; intros H;
    first [discriminate H | by left | by right].
Qed.

Lemma lower_ascii_s (c : ascii) :
  Str.lower_ascii c = "s"%char → c = "s"%char ∨ c = "S"%char.
Proof.
  destruct c as [[] [] [] [] [] [] [] []]; vm_compute; intros H;
    first [discriminate H | by left | by right].
Qed.

(** X3: [ask_user_yes_no] takes an answer for a yes exactly when it is
    [y] or [yes] in any mix of capitals and small letters; every other
    answer, the empty one too, counts as a no. *)
Theorem is_yes_answers (answer : string) :
  is_yes answer = true ↔ answer ∈ yes_answers.
Proof.
  split.
  - unfold is_yes. cbv zeta. rewrite orb_true_iff, !bool_decide_eq_true.
    intros [H|H].
    + destruct answer as [|c1 [|c2 rest]]; cbn [Str.lower] in H; [done| |done].
      injection H as H1. apply lower_ascii_y in H1 as [->| ->]; unfold yes_answers;
        repeat first [apply list_elem_of_here | apply list_elem_of_further].
    + destruct answer as [|c1 [|c2 [|c3 [|c4 rest]]]]; cbn [Str.lower] in H; [done..| |done].
      injection H as H1 H2 H3.
      apply lower_ascii_y in H1 as [->| ->]; apply lower_ascii_e in H2 as [->| ->];
        apply lower_ascii_s in H3 as [->| ->]; unfold yes_answers;
        repeat first [apply list_elem_of_here | apply list_elem_of_further].
  - unfold yes_answers. intros H.
    repeat (apply elem_of_cons in H as [->|H]; [vm_compute; reflexivity|]).
    by apply elem_of_nil in H.
Qed.

(** ** Local operations *)

(** X4: whether it returns or raises, [create_all_directories] leaves
    the standard input and the output alone and changes the destination
    in one way only: a path that was absent can be a directory
    afterwards, and then it is one of the directories asked for or an
    intermediate directory of one. Nothing that was there is removed or
    replaced. *)
Theorem create_all_directories_frame (dirs : list string) (st : state)
    (r : exn + unit) (st' : state) :
  create_all_directories dirs st = (r, st') →
  stdin st' = stdin st ∧ out st' = out st
  ∧ ∀ p, fs st' !! p = fs st !! p
         ∨ (fs st !! p = None ∧ fs st' !! p = Some Dir
            ∧ ∃ d, d ∈ dirs ∧ (p = d ∨ p ∈ os.parents d)).
Proof.
  intros Hrun.
  pose proof (create_all_directories_run _ _ _ _ Hrun) as [(_ & Hin & Hout) _].
  split; [done|]. split; [done|]. by eapply create_all_directories_grows_in.
Qed.

Lemma create_all_directories_frame_witness :
  create_all_directories ["a/b"] (State damaged [] [])
  = (inr (), State (<["a/b" := Dir]> (<["a" := Dir]> damaged)) [] [])
  ∧ ∀ p, <["a/b" := Dir]> (<["a" := Dir]> damaged) !! p = damaged !! p
         ∨ (damaged !! p = None ∧ <["a/b" := Dir]> (<["a" := Dir]> damaged) !! p = Some Dir
            ∧ ∃ d, d ∈ ["a/b"] ∧ (p = d ∨ p ∈ os.parents d)).
Proof.
  assert (Hrun : create_all_directories ["a/b"] (State damaged [] [])
                 = (inr (), State (<["a/b" := Dir]> (<["a" := Dir]> damaged)) [] []))
    by (vm_compute; reflexivity).
  split; [exact Hrun|].
  apply (create_all_directories_frame _ _ _ _ Hrun).
Defined.

(** X5: [create_all_directories] sorts the directories first, so what it
    does is the same for any order in which they are given. *)
Theorem create_all_directories_any_order (dirs1 dirs2 : list string) :
  dirs1 ≡ₚ dirs2 → create_all_directories dirs1 = create_all_directories dirs2.
Proof.
  intros Hperm. unfold create_all_directories.
  assert (Str.sorted dirs1 = Str.sorted dirs2) as ->; [|reflexivity].
  unfold Str.sorted. apply (Sorted_unique String.le).
  - apply Sorted_merge_sort; apply _.
  - apply Sorted_merge_sort; apply _.
  - by rewrite !merge_sort_Permutation.
Qed.

Lemma create_all_directories_any_order_witness :
  create_all_directories ["b"; "a/x"; "a"] = create_all_directories ["a"; "b"; "a/x"].
Proof.
  apply create_all_directories_any_order.
  apply (Permutation_cons_append ["a"; "b"; "a/x"] [] "b") || (by apply (bool_decide_unpack _)).
Defined.

(** X6: [delete_files] returns without an exception exactly when the
    paths it is given are regular files of the destination and no path is
    given twice; it then leaves the destination without these paths and
    with every other path as before. *)
Theorem delete_files_returns (files : list string) (st : state) :
  ((∃ st', delete_files files st = (inr (), st'))
   ↔ NoDup files ∧ ∀ f, f ∈ files → os.isfile (fs st) f = true)
  ∧ (∀ st', delete_files files st = (inr (), st') →
       stdin st' = stdin st ∧ out st' = out st
       ∧ ∀ p, fs st' !! p = if decide (p ∈ files) then None else fs st !! p).
Proof. apply delete_files_spec. Qed.

(** X7: [delete_files] stops with an [OSError] at the first path that is
    not a regular file when its turn comes (a missing path, a directory,
    or a path given before): the paths before it stay deleted and the
    paths after it are not touched. *)
Theorem delete_files_stops (before : list string) (f : string) (after : list string)
    (st : state) :
  NoDup before → (∀ g, g ∈ before → os.isfile (fs st) g = true) →
  os.isfile (fs st) f = false ∨ f ∈ before →
  ∃ st', delete_files (before ++ f :: after) st = (inl (OSError f), st')
         ∧ stdin st' = stdin st ∧ out st' = out st
         ∧ ∀ p, fs st' !! p = if decide (p ∈ before) then None else fs st !! p.
Proof.
  revert st. induction before as [|g before IH]; intros st Hnd Hfiles Hf.
  - destruct Hf as [Hf|Hf]; [|by apply elem_of_nil in Hf].
    exists st. cbn [app]. rewrite delete_files_cons.
    rewrite (run_bind_raise _ _ _ _ _ (remove_not_file _ _ Hf)). done.
  - apply NoDup_cons in Hnd as [Hnin Hnd]. cbn [app]. rewrite delete_files_cons.
    rewrite (run_bind_ok _ _ _ _ _ (remove_file g st (Hfiles g ltac:(left)))).
    destruct (IH (State (delete g (fs st)) (stdin st) (out st)) Hnd)
      as (st' & Hrun & Hin & Hout & Hfs).
    + intros h Hh. cbn [fs]. rewrite isfile_delete, decide_False by (intros ->; done).
      apply Hfiles. by right.
    + cbn [fs]. rewrite isfile_delete. destruct (decide (f = g)) as [->|Hne]; [by left|].
      destruct Hf as [Hf|[?|Hf]%elem_of_cons]; [by left|done|by right].
    + exists st'. split; [done|]. cbn [fs stdin out] in *. split; [done|]. split; [done|].
      intros p. rewrite Hfs. destruct (decide (p = g)) as [->|Hne].
      * rewrite (decide_True (P := g ∈ g :: before)) by left.
        destruct (decide (g ∈ before)); [done|]. apply lookup_delete_eq.
      * destruct (decide (p ∈ before)) as [Hp|Hp].
        -- rewrite decide_True; [done|by right].
        -- rewrite decide_False; [by apply lookup_delete_ne|].
           intros [?|?]%elem_of_cons; done.
Qed.

Lemma delete_files_stops_witness :
  ∃ st', delete_files (["f2"] ++ "f2" :: ["f3"]) (State damaged [] [])
         = (inl (OSError "f2"), st')
         ∧ stdin st' = [] ∧ out st' = []
         ∧ ∀ p, fs st' !! p = if decide (p ∈ ["f2"]) then None else damaged !! p.
Proof.
  apply (delete_files_stops ["f2"] "f2" ["f3"] (State damaged [] [])).
  - apply NoDup_singleton.
  - intros g Hg. apply list_elem_of_singleton in Hg. subst g. vm_compute. reflexivity.
  - right. left.
Defined.

(** ** Comparison *)




(** X9: [get_missing_and_existing_files] raises its [TypeError] exactly
    when some path is listed by the device both as a file and as a
    directory and is, in the destination, a file and not a directory or a
    directory and not a file. So it never raises when the device lists no
    path as both. In every case it leaves the state as it is. *)
Theorem type_error_only_on_remote_clash (R L : listing) :
  ((∃ e, compare_listings R L = inl e)
   ↔ ∃ p, p ∈ remote_files R ∧ p ∈ remote_dirs R
          ∧ ((p ∈ local_files L ∧ p ∉ local_dirs L) ∨ ((p ∉ local_files L) ∧ p ∈ local_dirs L)))
  ∧ ((remote_files R ## remote_dirs R) → ∃ lists, compare_listings R L = inr lists)
  ∧ (∀ dev st r st', get_missing_and_existing_files dev st = (r, st') → st' = st).
Proof.
  assert (Hbad : ∀ p, p ∈ badTypeItems R L ↔
            p ∈ remote_files R ∧ p ∈ remote_dirs R
            ∧ ((p ∈ local_files L ∧ p ∉ local_dirs L)
               ∨ ((p ∉ local_files L) ∧ p ∈ local_dirs L))).
  { intros p. unfold badTypeItems, existingFiles, missingDirs, missingFiles, existingDirs.
    rewrite elem_of_union, !elem_of_intersection, !elem_of_difference. tauto. }
  split; [|split].
  - rewrite compare_listings_eq. destruct (decide (badTypeItems R L ≠ ∅)) as [Hne|He].
    + split; [|eauto]. intros _. apply set_choose_L in Hne as [p Hp].
      exists p. by apply Hbad.
    + split; [by intros [e ?]|]. intros (p & Hp). exfalso. apply He.
      intros Hempty. apply Hbad in Hp. rewrite Hempty in Hp. by apply elem_of_empty in Hp.
  - intros Hdisj. rewrite (compare_listings_returns _ _ Hdisj). eauto.
  - intros dev st r st' Hrun.
    eapply readonly_run; [apply readonly_get_missing_and_existing_files|exact Hrun].
Qed.

(** ** The pull loop *)

Lemma pull_loop_cons_inv (dev : device) (sizes : gmap string Z) (f : string)
    (rest failed : list string) (st : state) (r : list string) (st' : state) :
  pull_loop dev sizes (f :: rest) failed st = (inr r, st') →
  ∃ failed2 m2 evs,
    pull_loop dev sizes rest failed2 (State m2 (stdin st) (out st ++ AdbPull f :: evs))
    = (inr r, st')
    ∧ ((dev_pull dev f (fs st) !! f = None
        ∧ failed2 = failed ++ [f] ∧ m2 = dev_pull dev f (fs st))
       ∨ (∃ size sha1,
            dev_pull dev f (fs st) !! f = Some (File size sha1)
            ∧ (dev_file_size dev f ≠ size ∨ dev_sha1sum dev f ≠ sha1)
            ∧ failed2 = failed ++ [f] ∧ m2 = delete f (dev_pull dev f (fs st)))
       ∨ (dev_pull dev f (fs st) !! f
          = Some (File (dev_file_size dev f) (dev_sha1sum dev f))
          ∧ failed2 = failed ∧ m2 = dev_pull dev f (fs st) ∧ evs = [])).
Proof.
  destruct (decide (dev_pull_status dev f (fs st) = 0)) as [Hexit|Hexit].
  2:{ rewrite pull_loop_cons, run_bind, pull_file_run. cbv zeta.
      by rewrite decide_True. }
  destruct (sizes !! f) as [z|] eqn:Hz.
  - rewrite (pull_loop_step _ _ _ _ _ _ _ Hz Hexit). cbv zeta.
    destruct (dev_pull dev f (fs st) !! f) as [[size sha1|]|] eqn:Hf; [| done |].
    + destruct (decide (dev_file_size dev f ≠ size)) as [Hsz|Hsz];
        [|destruct (decide (dev_sha1sum dev f ≠ sha1)) as [Hsh|Hsh]].
      * intros H. eexists _, _, _. split; [exact H|]. right. left. eauto 10.
      * intros H. eexists _, _, _. split; [exact H|]. right. left. eauto 10.
      * intros H. apply dec_stable in Hsz. apply dec_stable in Hsh. subst.
        eexists _, _, []. split; [exact H|]. right. right. done.
    + intros H. eexists _, _, _. split; [exact H|]. left. done.
  - rewrite pull_loop_cons. intros H.
    apply run_bind_inv in H as [(e & _ & ?)|(status & st1 & _ & H)]; [done|].
    apply run_bind_inv in H as [(e & _ & ?)|(failed2 & st2 & _ & H)]; [done|].
    rewrite run_bind in H. unfold subscript in H. rewrite Hz in H. done.
Qed.

Lemma pull_loop_post (dev : device) (sizes : gmap string Z) (files : list string) :
  local_pull dev → NoDup files →
  ∀ failed st r st',
    pull_loop dev sizes files failed st = (inr r, st') →
    ∃ newly,
      r = failed ++ newly ∧ newly `sublist_of` files
      ∧ (∀ f, f ∈ newly → fs st' !! f = None)
      ∧ (∀ f, f ∈ files → f ∉ newly →
              fs st' !! f = Some (File (dev_file_size dev f) (dev_sha1sum dev f)))
      ∧ (∀ p, p ∉ files → fs st' !! p = fs st !! p).
Proof.
  intros Hlocal. induction files as [|f rest IH]; intros Hnd failed st r st' Hrun.
  - injection Hrun as <- <-. exists []. rewrite app_nil_r.
    split; [done|]. split; [done|]. split; [by intros ? ?%elem_of_nil|].
    split; [by intros ? ?%elem_of_nil|done].
  - apply NoDup_cons in Hnd as [Hnin Hnd].
    apply pull_loop_cons_inv in Hrun as (failed2 & m2 & evs & Hrun & Hcase).
    destruct (IH Hnd _ _ _ _ Hrun) as (newly & -> & Hsub & Hgone & Hkept & Hframe).
    cbn [fs] in Hframe.
    assert (Hother : ∀ p, p ≠ f → m2 !! p = fs st !! p).
    { intros p Hp. destruct Hcase as [(_ & _ & ->)|[(? & ? & _ & _ & _ & ->)|(_ & _ & -> & _)]].
      - by apply Hlocal.
      - rewrite lookup_delete_ne by done. by apply Hlocal.
      - by apply Hlocal. }
    destruct Hcase as [(Hf & -> & ->)|[(size & sha1 & Hf & _ & -> & ->)|(Hf & -> & -> & _)]].
    + exists (f :: newly). split; [by rewrite <- app_assoc|]. split; [by constructor|].
      split; [|split].
      * intros g [->|Hg]%elem_of_cons; [|by apply Hgone]. by rewrite Hframe.
      * intros g [->|Hg]%elem_of_cons Hng; [exfalso; apply Hng; left|].
        apply Hkept; [done|]. intros ?. apply Hng. by right.
      * intros p Hp. rewrite Hframe by (intros ?; apply Hp; by right).
        apply Hother. intros ->. apply Hp. left.
    + exists (f :: newly). split; [by rewrite <- app_assoc|]. split; [by constructor|].
      split; [|split].
      * intros g [->|Hg]%elem_of_cons; [|by apply Hgone].
        rewrite Hframe by done. apply lookup_delete_eq.
      * intros g [->|Hg]%elem_of_cons Hng; [exfalso; apply Hng; left|].
        apply Hkept; [done|]. intros ?. apply Hng. by right.
      * intros p Hp. rewrite Hframe by (intros ?; apply Hp; by right).
        apply Hother. intros ->. apply Hp. left.
    + exists newly. split; [done|]. split; [by constructor|]. split; [done|]. split.
      * intros g [->|Hg]%elem_of_cons Hng; [by rewrite Hframe|by apply Hkept].
      * intros p Hp. rewrite Hframe by (intros ?; apply Hp; by right).
        apply Hother. intros ->. apply Hp. left.
Qed.

(** X10: when [adb pull] writes nothing but the path of the file it is
    asked for, a pull loop that comes to its end over files that are all
    different leaves each of them in one of two ways: the file is among
    the failed files and nothing is at its path, or it is not and the
    destination holds it with the size and the digest the device reports.
    No copy of another size or digest is left, and no other path is
    changed. *)
Theorem pull_loop_leaves_no_corrupt_file (dev : device) (sizes : gmap string Z)
    (files failed : list string) (st : state) (r : list string) (st' : state) :
  local_pull dev → NoDup files →
  pull_loop dev sizes files failed st = (inr r, st') →
  ∃ newly_failed,
    r = failed ++ newly_failed ∧ newly_failed `sublist_of` files
    ∧ (∀ f, f ∈ newly_failed → fs st' !! f = None)
    ∧ (∀ f, f ∈ files → f ∉ newly_failed →
            fs st' !! f = Some (File (dev_file_size dev f) (dev_sha1sum dev f)))
    ∧ (∀ p, p ∉ files → fs st' !! p = fs st !! p).
Proof. intros Hlocal Hnd Hrun. by eapply pull_loop_post. Qed.

Lemma pull_loop_sublist (dev : device) (sizes : gmap string Z) (files : list string) :
  ∀ failed st r st',
    pull_loop dev sizes files failed st = (inr r, st') →
    ∃ newly, r = failed ++ newly ∧ newly `sublist_of` files.
Proof.
  induction files as [|f rest IH]; intros failed st r st' Hrun.
  - injection Hrun as <- _. exists []. by rewrite app_nil_r.
  - apply pull_loop_cons_inv in Hrun as (failed2 & m2 & evs & Hrun & Hcase).
    destruct (IH _ _ _ _ Hrun) as (newly & -> & Hsub).
    destruct Hcase as [(_ & -> & _)|[(? & ? & _ & _ & -> & _)|(_ & -> & _)]].
    + exists (f :: newly). split; [by rewrite <- app_assoc|by constructor].
    + exists (f :: newly). split; [by rewrite <- app_assoc|by constructor].
    + exists newly. split; [done|by constructor].
Qed.

Lemma pull_loop_events (dev : device) (sizes : gmap string Z) (files : list string) :
  ∀ failed st r st',
    pull_loop dev sizes files failed st = (inr r, st') →
    stdin st' = stdin st
    ∧ ∃ events, out st' = out st ++ events ∧ ∀ f, f ∈ files → AdbPull f ∈ events.
Proof.
  induction files as [|f rest IH]; intros failed st r st' Hrun.
  - injection Hrun as _ <-. split; [done|]. exists []. rewrite app_nil_r.
    split; [done|]. by intros ? ?%elem_of_nil.
  - apply pull_loop_cons_inv in Hrun as (failed2 & m2 & evs & Hrun & _).
    apply IH in Hrun as (Hin & events & Hout & Hall). cbn [stdin out] in Hin, Hout.
    split; [done|]. exists (AdbPull f :: evs ++ events).
    split; [by rewrite Hout, <- app_assoc|].
    intros g [->|Hg]%elem_of_cons; [left|]. right. apply elem_of_app. right. by apply Hall.
Qed.

Lemma override_and_pull_no_override (args : arguments) (dev : device)
    (missing_files existing_files : list string) (st : state) :
  override args = false →
  override_and_pull args dev missing_files existing_files st
  = (failed_files ←
       (if decide (missing_files ≠ []) then
          src_file_sizes ← dict_of missing_files (get_src_file_size dev) ∅;
          let total_missing_size := map_fold (λ _ v acc, v + acc) 0 src_file_sizes in
          emit (PrintEstimate total_missing_size) ;;
          pull_loop dev src_file_sizes missing_files []
        else mret []);
     let num_of_failed_pulls := Z.of_nat (length failed_files) in
     let num_of_successful_pulls := Z.of_nat (length missing_files) - num_of_failed_pulls in
     emit (PrintResult num_of_successful_pulls num_of_failed_pulls failed_files)) st.
Proof.
  intros Hov. unfold override_and_pull. rewrite Hov.
  rewrite (run_bind_ok _ _ _ _ _ (ret_run missing_files st)). reflexivity.
Qed.

(** X11: [--override] asks for a confirmation unless [--yes] is given.
    Once confirmed, the run goes on as a run without [--override] that
    has the existing files after the missing files in its list of files
    to pull; when the answer is not a yes, it goes on as a run without
    [--override] on the missing files alone; and when the standard input
    is at its end, the question raises [EOFError]. *)
Theorem override_is_confirmed_first (args : arguments) (dev : device)
    (missing_files existing_files : list string) (st : state) :
  override args = true →
  (yes args = true →
     override_and_pull args dev missing_files existing_files st
     = override_and_pull (no_override args) dev (missing_files ++ existing_files)
         existing_files (State (fs st) (stdin st) (out st ++ [PrintOverriding])))
  ∧ (yes args = false →
     match stdin st with
     | [] =>
         override_and_pull args dev missing_files existing_files st
         = (inl EOFError, State (fs st) [] (out st ++ [Prompt "Confirm overriding."]))
     | answer :: rest =>
         override_and_pull args dev missing_files existing_files st
         = if is_yes answer
           then override_and_pull (no_override args) dev (missing_files ++ existing_files)
                  existing_files
                  (State (fs st) rest
                         (out st ++ [Prompt "Confirm overriding."; PrintOverriding]))
           else override_and_pull (no_override args) dev missing_files existing_files
                  (State (fs st) rest (out st ++ [Prompt "Confirm overriding."]))
     end).
Proof.
  intros Hov. split.
  - intros Hyes. rewrite (override_and_pull_no_override (no_override args)) by done.
    unfold override_and_pull. rewrite Hov, Hyes.
    rewrite !run_bind. reflexivity.
  - intros Hyes. destruct (stdin st) as [|answer rest] eqn:Hin.
    + unfold override_and_pull. rewrite Hov, Hyes. rewrite !run_bind.
      unfold ask_user_yes_no. rewrite Hin. reflexivity.
    + destruct (is_yes answer) eqn:Hans.
      * rewrite (override_and_pull_no_override (no_override args)) by done.
        replace (out st ++ [Prompt "Confirm overriding."; PrintOverriding])
          with ((out st ++ [Prompt "Confirm overriding."]) ++ [PrintOverriding])
          by (by rewrite <- app_assoc).
        unfold override_and_pull. rewrite Hov, Hyes. rewrite !run_bind.
        unfold ask_user_yes_no. rewrite Hin, Hans. reflexivity.
      * rewrite (override_and_pull_no_override (no_override args)) by done.
        unfold override_and_pull. rewrite Hov, Hyes. rewrite !run_bind.
        unfold ask_user_yes_no. rewrite Hin, Hans. reflexivity.
Qed.

(** X12: a run of the pull phase that comes to its end prints its result
    last: the failed files are files it was to pull, in the order of the
    pulls, the number of successful pulls is not negative, and an
    [adb pull] was sent for every file it was to pull. Without
    [--override] the files to pull are the missing files. *)
Theorem final_report (args : arguments) (dev : device)
    (missing_files existing_files : list string) (st st' : state) :
  override args = false →
  override_and_pull args dev missing_files existing_files st = (inr (), st') →
  ∃ failed_files events,
    out st' = out st ++ events
              ++ [PrintResult (Z.of_nat (length missing_files) - Z.of_nat (length failed_files))
                              (Z.of_nat (length failed_files)) failed_files]
    ∧ failed_files `sublist_of` missing_files
    ∧ 0 ≤ Z.of_nat (length missing_files) - Z.of_nat (length failed_files)
    ∧ (∀ f, f ∈ missing_files → AdbPull f ∈ events)
    ∧ stdin st' = stdin st.
Proof.
  intros Hov Hrun.
  rewrite (override_and_pull_no_override _ _ _ _ _ Hov) in Hrun.
  apply run_bind_inv in Hrun as [(e & _ & ?)|(failed & st1 & Hpull & Hrun)]; [done|].
  rewrite emit_run in Hrun. injection Hrun as <-. cbn [out stdin].
  destruct (decide (missing_files ≠ [])) as [Hne|He].
  - apply run_bind_inv in Hpull as [(e & _ & ?)|(sizes & st2 & Hsz & Hpull)]; [done|].
    assert (st2 = st) as ->.
    { eapply readonly_run; [|exact Hsz]. apply readonly_dict_of. intros. apply readonly_ret. }
    rewrite (run_bind_ok _ _ _ _ _ (emit_run _ _)) in Hpull.
    pose proof (pull_loop_sublist _ _ _ _ _ _ _ Hpull) as (newly & -> & Hsub).
    pose proof (pull_loop_events _ _ _ _ _ _ _ Hpull) as (Hin & evs & Hout & Hall).
    cbn [out stdin] in Hin, Hout.
    exists newly, ([PrintEstimate (map_fold (λ (_ : string) (v acc : Z), v + acc) 0 sizes)]
                   ++ evs).
    split; [by rewrite Hout, <- !app_assoc|]. split; [done|].
    split; [apply sublist_length in Hsub; lia|]. split; [|done].
    intros f Hf. apply elem_of_app. right. by apply Hall.
  - apply dec_stable in He. subst. injection Hpull as <- <-.
    exists [], []. split; [done|]. split; [done|]. split; [done|].
    split; [by intros ? ?%elem_of_nil|done].
Qed.

(** ** A second run *)

Lemma faithful_local (dev : device) : faithful dev → local_pull dev.
Proof. intros Hf f m p Hp. rewrite Hf. by apply lookup_insert_ne. Qed.

Lemma pull_loop_faithful (dev : device) (sizes : gmap string Z) (files : list string) :
  faithful dev →
  ∀ failed st r st', pull_loop dev sizes files failed st = (inr r, st') → r = failed.
Proof.
  intros Hf. induction files as [|f rest IH]; intros failed st r st' Hrun.
  - by injection Hrun as <- _.
  - apply pull_loop_cons_inv in Hrun as (failed2 & m2 & evs & Hrun & Hcase).
    apply IH in Hrun as ->. rewrite Hf, lookup_insert_eq in Hcase.
    destruct Hcase as [(? & _)|[(size & sha1 & [= <- <-] & [?|?] & _)|(_ & -> & _)]]; done.
Qed.

(** The destination after a run that pulled from a faithful device: it
    holds every file and every directory the device lists. *)
Lemma first_run_complete (args : arguments) (dev : device) (st st' : state) :
  faithful dev → (remote_files (dev_listing dev) ## remote_dirs (dev_listing dev)) →
  adb_path_is_file args = true → dst_path_is_dir args = true →
  dev_connected dev = true →
  dev_path_type dev ≠ "none" → dev_path_type dev ≠ "file" →
  verify_flag args = false → auto_flag args = false → override args = false →
  main args dev st = (inr (), st') →
  (∀ f, f ∈ remote_files (dev_listing dev) → os.isfile (fs st') f = true)
  ∧ (∀ d, d ∈ remote_dirs (dev_listing dev) → fs st' !! d = Some Dir)
  ∧ ∃ events n, out st' = out st ++ events ++ [PrintResult n 0 []].
Proof.
  intros Hfaith Hdisj Hadb Hdst Hconn Hnone Hfile Hv Ha Hov Hrun.
  rewrite (main_passes _ _ _ Hadb Hdst Hconn Hnone) in Hrun.
  rewrite decide_False in Hrun by done.
  apply run_bind_inv in Hrun as [(e & _ & ?)|([[[mf ef] md] ed] & stL & Hlists & Hrun)];
    [done|].
  pose proof (readonly_run _ _ _ _ (readonly_get_missing_and_existing_files _) Hlists) as ->.
  unfold get_missing_and_existing_files, get_src_all_files_and_dirs in Hlists.
  rewrite (run_bind_ok _ _ _ _ _ (ret_run _ _)) in Hlists. rewrite run_bind in Hlists.
  unfold get_fs, lift in Hlists. cbv beta iota in Hlists. injection Hlists as Hcmp.
  rewrite (compare_listings_returns _ _ Hdisj) in Hcmp. injection Hcmp as <- <- <- <-.
  unfold main_from_lists in Hrun.
  rewrite (run_bind_ok _ _ _ _ _ (emit_run _ _)) in Hrun.
  rewrite (run_bind_ok _ _ _ _ _ (emit_run _ _)) in Hrun.
  cbn [fs stdin out] in Hrun. rewrite Hv, Ha in Hrun. cbn [orb] in Hrun.
  apply run_bind_inv in Hrun as [(e & _ & ?)|([] & stD & Hmk & Hrun)]; [done|].
  apply create_all_directories_run in Hmk as [(Hg & _ & HoutD) Hdirs].
  cbn [fs out] in Hg, HoutD. specialize (Hdirs eq_refl).
  rewrite (override_and_pull_no_override _ _ _ _ _ Hov) in Hrun.
  apply run_bind_inv in Hrun as [(e & _ & ?)|(failed' & stP & Hpull & Hrun)]; [done|].
  rewrite emit_run in Hrun. injection Hrun as <-. cbn [fs].
  set (R := dev_listing dev) in *. set (L := get_dst_all_files_and_dirs (fs st)) in *.
  assert (HP : failed' = []
               ∧ (∀ f, f ∈ elements (missingFiles R L) → os.isfile (fs stP) f = true)
               ∧ (∀ p, p ∉ elements (missingFiles R L) → fs stP !! p = fs stD !! p)
               ∧ ∃ events, out stP = out stD ++ events).
  { destruct (decide (elements (missingFiles R L) ≠ [])) as [Hne|He].
    - apply run_bind_inv in Hpull as [(e & _ & ?)|(sizes & st2 & Hsz & Hpull)]; [done|].
      assert (st2 = stD) as ->.
      { eapply readonly_run; [|exact Hsz]. apply readonly_dict_of. intros. apply readonly_ret. }
      rewrite (run_bind_ok _ _ _ _ _ (emit_run _ _)) in Hpull.
      pose proof (pull_loop_faithful _ _ _ Hfaith _ _ _ _ Hpull) as ->.
      destruct (pull_loop_post _ _ _ (faithful_local _ Hfaith) (NoDup_elements _)
                  _ _ _ _ Hpull) as (newly & Hnil & _ & _ & Hkept & Hframe).
      symmetry in Hnil. apply app_eq_nil in Hnil as [_ ->]. split; [done|].
      split; [|split].
      + intros f Hf. unfold os.isfile. rewrite (Hkept f Hf); [done|]. by intros ?%elem_of_nil.
      + intros p Hp. by rewrite Hframe.
      + pose proof (pull_loop_events _ _ _ _ _ _ _ Hpull) as (_ & evs & Hevs & _).
        cbn [out] in Hevs. rewrite Hevs, <- app_assoc. eauto.
    - apply dec_stable in He. injection Hpull as <- <-. rewrite He. split; [done|].
      split; [by intros ? ?%elem_of_nil|]. split; [done|]. exists []. by rewrite app_nil_r. }
  destruct HP as (-> & Hnew & Hold & evs & Hevs). split; [|split].
  - intros f Hf. destruct (decide (f ∈ elements (missingFiles R L))) as [Hm|Hm].
    + by apply Hnew.
    + unfold os.isfile. rewrite (Hold f Hm).
      assert (HfL : os.isfile (fs st) f = true).
      { apply local_files_listing. fold L. rewrite elem_of_elements in Hm.
        unfold missingFiles in Hm. rewrite elem_of_difference in Hm.
        destruct (decide (f ∈ local_files L)); [done|]. exfalso. by apply Hm. }
      unfold os.isfile in HfL. destruct (fs st !! f) as [[size sha1|]|] eqn:Hst; [|done..].
      by rewrite (grows_kept _ _ _ _ Hg Hst).
  - intros d Hd. rewrite Hold.
    + destruct (decide (d ∈ elements (missingDirs R L))) as [Hm|Hm]; [by apply Hdirs|].
      eapply grows_dir; [exact Hg|]. apply local_dirs_listing. fold L.
      rewrite elem_of_elements in Hm. unfold missingDirs in Hm.
      rewrite elem_of_difference in Hm.
      destruct (decide (d ∈ local_dirs L)); [done|]. exfalso. by apply Hm.
    + rewrite elem_of_elements. unfold missingFiles. rewrite elem_of_difference.
      intros [Hf _]. exact (Hdisj d Hf Hd).
  - exists ([PrintMissingFiles (truncate_list (elements (missingFiles R L)));
             PrintMissingDirs (truncate_list (elements (missingDirs R L)))] ++ evs).
    eexists. cbn [out length]. rewrite Hevs, HoutD, <- !app_assoc. reflexivity.
Qed.

(** X13: after a run without [--verify], [--auto] and [--override] that
    came to its end on a device whose [adb pull] copies each file as the
    device describes it, a second run finds nothing missing: it reports
    no missing file and no missing directory, pulls nothing, reports 0
    pulls and 0 failures, and leaves the destination as it is. The first
    run reported no failure. *)
Theorem second_run_finds_nothing (args : arguments) (dev : device) (st st' : state) :
  faithful dev → (remote_files (dev_listing dev) ## remote_dirs (dev_listing dev)) →
  adb_path_is_file args = true → dst_path_is_dir args = true →
  dev_connected dev = true →
  dev_path_type dev ≠ "none" → dev_path_type dev ≠ "file" →
  verify_flag args = false → auto_flag args = false → override args = false →
  main args dev st = (inr (), st') →
  main args dev st'
  = (inr (),
     State (fs st') (stdin st')
           (out st' ++ [PrintMissingFiles []; PrintMissingDirs []; PrintResult 0 0 []]))
  ∧ ∃ events n, out st' = out st ++ events ++ [PrintResult n 0 []].
Proof.
  intros Hfaith Hdisj Hadb Hdst Hconn Hnone Hfile Hv Ha Hov Hrun.
  destruct (first_run_complete _ _ _ _ Hfaith Hdisj Hadb Hdst Hconn Hnone Hfile Hv Ha Hov Hrun)
    as (Hfiles & Hdirs & Hout).
  split; [|done].
  rewrite (main_passes _ _ _ Hadb Hdst Hconn Hnone). rewrite decide_False by done.
  set (R := dev_listing dev) in *. set (L := get_dst_all_files_and_dirs (fs st')).
  assert (Hl : get_missing_and_existing_files dev st'
               = (inr ([], elements (existingFiles R L), [], elements (existingDirs R L)),
                  st')).
  { unfold get_missing_and_existing_files, get_src_all_files_and_dirs.
    rewrite (run_bind_ok _ _ _ _ _ (ret_run _ _)). rewrite run_bind.
    unfold get_fs, lift. cbv beta iota. fold R L.
    rewrite (compare_listings_returns _ _ Hdisj).
    assert (missingFiles R L = ∅) as ->.
    { apply set_eq. intros f. unfold missingFiles. rewrite elem_of_difference, elem_of_empty.
      split; [|done]. intros [Hf Hn]. apply Hn. apply local_files_listing. by apply Hfiles. }
    assert (missingDirs R L = ∅) as ->.
    { apply set_eq. intros d. unfold missingDirs. rewrite elem_of_difference, elem_of_empty.
      split; [|done]. intros [Hd Hn]. apply Hn. apply local_dirs_listing. by apply Hdirs. }
    by rewrite elements_empty. }
  rewrite (run_bind_ok _ _ _ _ _ Hl).
  unfold main_from_lists.
  rewrite (run_bind_ok _ _ _ _ _ (emit_run _ _)).
  rewrite (run_bind_ok _ _ _ _ _ (emit_run _ _)).
  change (truncate_list []) with (@nil string).
  change (create_all_directories []) with (mret () : M unit).
  rewrite (run_bind_ok _ _ _ _ _ (ret_run () _)). rewrite Hv, Ha. cbn [orb].
  rewrite (override_and_pull_no_override _ _ _ _ _ Hov).
  rewrite decide_False by (intros ?; done).
  rewrite (run_bind_ok _ _ _ _ _ (ret_run [] _)). rewrite emit_run.
  cbn [fs stdin out length]. rewrite <- !app_assoc. reflexivity.
Qed.

(** ** The further properties at work on the scene *)

Lemma phone_local_pull : local_pull phone.
Proof.
  intros f m p Hp. cbn [dev_pull phone]. unfold faithful_pull.
  destruct (remote_tree !! f); [by apply lookup_insert_ne|done].
Qed.

Lemma mirror_disjoint : remote_files (dev_listing mirror) ## remote_dirs (dev_listing mirror).
Proof.
  intros p Hf Hd. unfold remote_files, remote_dirs in *. cbn [dev_listing mirror l_files l_dirs] in *.
  apply elem_of_list_to_set in Hf, Hd. apply list_elem_of_singleton in Hd. subst p.
  apply elem_of_cons in Hf as [?|Hf]; [done|]. by apply list_elem_of_singleton in Hf.
Qed.

Lemma pull_loop_leaves_no_corrupt_file_witness :
  ∃ newly_failed,
    [] = [] ++ newly_failed ∧ newly_failed `sublist_of` ["f2"]
    ∧ (∀ f, f ∈ newly_failed → ({[ "f2" := File 50 "D2" ]} : gmap string node) !! f = None)
    ∧ (∀ f, f ∈ ["f2"] → f ∉ newly_failed →
            ({[ "f2" := File 50 "D2" ]} : gmap string node) !! f
            = Some (File (dev_file_size phone f) (dev_sha1sum phone f)))
    ∧ (∀ p, p ∉ ["f2"] → ({[ "f2" := File 50 "D2" ]} : gmap string node) !! p
                         = (∅ : gmap string node) !! p).
Proof.
  assert (Hrun : pull_loop phone {[ "f2" := 50 ]} ["f2"] [] (State ∅ [] [])
                 = (inr [], State {[ "f2" := File 50 "D2" ]} [] [AdbPull "f2"]))
    by (vm_compute; reflexivity).
  apply (pull_loop_leaves_no_corrupt_file phone _ _ _ _ _ _ phone_local_pull
           (NoDup_singleton "f2") Hrun).
Defined.

Lemma override_is_confirmed_first_witness :
  override_and_pull (run_args true false false true) phone ["f2"] ["dirA/f1"]
    (State (<["dirA" := Dir]> damaged) [] [])
  = override_and_pull (no_override (run_args true false false true)) phone
      (["f2"] ++ ["dirA/f1"]) ["dirA/f1"]
      (State (<["dirA" := Dir]> damaged) [] ([] ++ [PrintOverriding])).
Proof.
  exact (proj1 (override_is_confirmed_first (run_args true false false true) phone
                  ["f2"] ["dirA/f1"] (State (<["dirA" := Dir]> damaged) [] []) eq_refl)
               eq_refl).
Defined.

Lemma final_report_witness :
  ∃ failed_files events,
    [PrintEstimate 50; AdbPull "f2"; PrintResult 1 0 []]
    = [] ++ events
         ++ [PrintResult (Z.of_nat (length ["f2"]) - Z.of_nat (length failed_files))
                         (Z.of_nat (length failed_files)) failed_files]
    ∧ failed_files `sublist_of` ["f2"]
    ∧ 0 ≤ Z.of_nat (length ["f2"]) - Z.of_nat (length failed_files)
    ∧ (∀ f, f ∈ ["f2"] → AdbPull f ∈ events)
    ∧ @nil string = [].
Proof.
  assert (Hrun : override_and_pull (run_args false false false false) phone ["f2"] []
                   (State ∅ [] [])
                 = (inr (), State {[ "f2" := File 50 "D2" ]} []
                                  [PrintEstimate 50; AdbPull "f2"; PrintResult 1 0 []]))
    by (vm_compute; reflexivity).
  exact (final_report (run_args false false false false) phone ["f2"] [] _ _ eq_refl Hrun).
Defined.

Lemma second_run_finds_nothing_witness :
  main (run_args false false false false) mirror
    (State remote_tree []
           [PrintMissingFiles ["f2"; "dirA/f1"]; PrintMissingDirs ["dirA"]; PrintEstimate 150;
            AdbPull "f2"; AdbPull "dirA/f1"; PrintResult 2 0 []])
  = (inr (),
     State remote_tree []
           ([PrintMissingFiles ["f2"; "dirA/f1"]; PrintMissingDirs ["dirA"]; PrintEstimate 150;
             AdbPull "f2"; AdbPull "dirA/f1"; PrintResult 2 0 []]
              ++ [PrintMissingFiles []; PrintMissingDirs []; PrintResult 0 0 []])).
Proof.
  assert (Hrun : main (run_args false false false false) mirror (State ∅ [] [])
                 = (inr (),
                    State remote_tree []
                          [PrintMissingFiles ["f2"; "dirA/f1"]; PrintMissingDirs ["dirA"];
                           PrintEstimate 150; AdbPull "f2"; AdbPull "dirA/f1";
                           PrintResult 2 0 []]))
    by (vm_compute; reflexivity).
  apply (second_run_finds_nothing (run_args false false false false) mirror _ _
           (λ _ _, eq_refl) mirror_disjoint eq_refl eq_refl eq_refl
           ltac:(vm_compute; discriminate) ltac:(vm_compute; discriminate)
           eq_refl eq_refl eq_refl Hrun).
Defined.

(** ** The recursive listing *)

Lemma length_append (a b : string) :
  String.length (a +:+ b) = (String.length a + String.length b)%nat.
Proof. induction a as [|c a IH]; [done|]. rewrite append_cons. cbn [String.length]. by rewrite IH. Qed.

Lemma strip_prefix_spec (p s n : string) :
  Walk.strip_prefix p s = Some n ↔ s = p +:+ n.
Proof.
  revert s. induction p as [|a p IH]; intros s; cbn [Walk.strip_prefix].
  - split; [by intros [= ->]|by intros ->].
  - destruct s as [|b s]; [by split|]. rewrite append_cons.
    destruct (Ascii.eqb_spec a b) as [->|Hne].
    + rewrite IH. split; [by intros ->|by intros [= ->]].
    + split; [done|]. intros [= ? _]. done.
Qed.

Lemma path_join_empty_r (p n : string) : Walk.path_join p "" +:+ n = Walk.path_join p n.
Proof.
  unfold Walk.path_join. destruct (decide (p = "")) as [->|_]; [done|].
  by rewrite append_assoc.
Qed.

Lemma child_name_spec (p k n : string) :
  Walk.child_name p k = Some n ↔ Walk.is_name n = true ∧ k = Walk.path_join p n.
Proof.
  unfold Walk.child_name.
  destruct (Walk.strip_prefix (Walk.path_join p "") k) as [n'|] eqn:Hs.
  - apply strip_prefix_spec in Hs. rewrite path_join_empty_r in Hs. subst k.
    destruct (Walk.is_name n') eqn:Hn.
    + split; [by intros [= <-]|]. intros [_ Heq]. f_equal.
      unfold Walk.path_join in Heq. destruct (decide (p = "")); [done|].
      by apply (inj (String.app p)) in Heq as [= ->].
    + split; [done|]. intros [Hn2 Heq].
      assert (n' = n) as ->; [|congruence].
      unfold Walk.path_join in Heq. destruct (decide (p = "")); [done|].
      by apply (inj (String.app p)) in Heq as [= ->].
  - split; [done|]. intros [_ ->].
    assert (Walk.strip_prefix (Walk.path_join p "") (Walk.path_join p n) = Some n) as Hs'.
    { apply strip_prefix_spec. by rewrite path_join_empty_r. }
    congruence.
Qed.

Lemma elem_of_listdir (m : gmap string node) (p n : string) :
  n ∈ Walk.listdir m p ↔ Walk.is_name n = true ∧ is_Some (m !! Walk.path_join p n).
Proof.
  unfold Walk.listdir. rewrite list_elem_of_omap. split.
  - intros (k & Hk & Hc). apply child_name_spec in Hc as [Hn ->]. split; [done|].
    apply list_elem_of_fmap in Hk as ([k' v] & -> & Hkv).
    apply elem_of_map_to_list in Hkv. eauto.
  - intros [Hn [v Hv]]. exists (Walk.path_join p n). split; [|by apply child_name_spec].
    apply list_elem_of_fmap. exists (Walk.path_join p n, v).
    split; [done|]. by apply elem_of_map_to_list.
Qed.

Lemma elem_of_immediate_files (m : gmap string node) (p f : string) :
  f ∈ Walk.immediate_files m p
  ↔ Walk.is_name f = true ∧ os.isfile m (Walk.path_join p f) = true.
Proof.
  unfold Walk.immediate_files. rewrite list_elem_of_filter. cbv beta.
  rewrite filename2osformat_id, elem_of_listdir.
  split; [tauto|]. intros [Hn Hf]. split; [done|]. split; [done|].
  unfold os.isfile in Hf. destruct (m !! Walk.path_join p f); [eauto|done].
Qed.

Lemma elem_of_immediate_dirs (m : gmap string node) (p d : string) :
  d ∈ Walk.immediate_dirs m p
  ↔ Walk.is_name d = true ∧ m !! Walk.path_join p d = Some Dir.
Proof.
  unfold Walk.immediate_dirs. rewrite list_elem_of_filter. cbv beta.
  rewrite filename2osformat_id, elem_of_listdir.
  unfold os.isdir. split.
  - intros [Hd [Hn _]]. split; [done|]. by destruct (m !! Walk.path_join p d) as [[]|].
  - intros [Hn Hd]. rewrite Hd. eauto.
Qed.

Lemma fmap_path_join (d : string) (l : list string) :
  (λ nf, Walk.path_join d (filename2osformat nf)) <$> l = Walk.path_join d <$> l.
Proof. apply list_fmap_ext. intros _ nf _. by rewrite filename2osformat_id. Qed.

(** The function with its fuel and the relation agree. *)
Lemma walk_dirs_walks (m : gmap string node)
    (rec : string → option (list string * list string)) :
  (∀ q r, rec q = Some r → lists m q r) →
  ∀ fuel p i files dirs r,
    Walk.walk_dirs rec fuel p i files dirs = Some r → walks m p i files dirs r.
Proof.
  intros Hrec. induction fuel as [|fuel IH]; intros p i files dirs r; [done|].
  cbn [Walk.walk_dirs]. destruct (dirs !! i) as [d|] eqn:Hd.
  - rewrite filename2osformat_id.
    destruct (rec (Walk.path_join p d)) as [[nf nd]|] eqn:Hq; [|done].
    rewrite !fmap_path_join. intros Hrun.
    eapply walks_step; [done|by apply Hrec|]. by apply IH.
  - intros [= <-]. by constructor.
Qed.

Lemma get_dst_lists (m : gmap string node) (fuel : nat) (p : string)
    (r : list string * list string) :
  Walk.get_dst_all_files_and_dirs fuel m p = Some r → lists m p r.
Proof.
  revert p r. induction fuel as [|fuel IH]; intros p r; [done|].
  cbn [Walk.get_dst_all_files_and_dirs]. apply walk_dirs_walks. apply IH.
Qed.

Lemma walks_fuel (m : gmap string node) (p : string) (i : nat) (files dirs : list string)
    (r : list string * list string) :
  walks m p i files dirs r →
  ∃ n, ∀ fr fl, (n ≤ fr)%nat → (n ≤ fl)%nat →
       Walk.walk_dirs (Walk.get_dst_all_files_and_dirs fr m) fl p i files dirs = Some r.
Proof.
  induction 1 as [p i files dirs Hi|p i files dirs d nf nd r Hi _ [n1 IH1] _ [n2 IH2]].
  - exists 1%nat. intros fr [|fl] _ Hfl; [lia|]. cbn [Walk.walk_dirs]. by rewrite Hi.
  - exists (S (n1 `max` n2)). intros [|fr] [|fl] Hfr Hfl; [lia..|].
    cbn [Walk.walk_dirs]. rewrite Hi, filename2osformat_id.
    cbn [Walk.get_dst_all_files_and_dirs]. rewrite IH1 by lia.
    rewrite !fmap_path_join. apply (IH2 (S fr) fl); lia.
Qed.

Lemma lists_fuel (m : gmap string node) (p : string) (r : list string * list string) :
  lists m p r →
  ∃ n, ∀ fuel, (n ≤ fuel)%nat → Walk.get_dst_all_files_and_dirs fuel m p = Some r.
Proof.
  intros [n Hn]%walks_fuel. exists (S n). intros [|fuel] Hfuel; [lia|].
  cbn [Walk.get_dst_all_files_and_dirs]. apply Hn; lia.
Qed.

Lemma is_name_nonempty (n : string) : Walk.is_name n = true → n ≠ "".
Proof.
  unfold Walk.is_name. intros [Hn _]%andb_true_iff ->. done.
Qed.

Lemma path_join_nonempty (p d : string) : d ≠ "" → Walk.path_join p d ≠ "".
Proof.
  unfold Walk.path_join. destruct (decide (p = "")); [done|]. by destruct p.
Qed.

Lemma path_join_cons (p d : string) : p ≠ "" → Walk.path_join p d = p +:+ String "/" d.
Proof. intros Hp. unfold Walk.path_join. by rewrite decide_False. Qed.

Lemma path_join_assoc (p d e : string) :
  d ≠ "" → Walk.path_join (Walk.path_join p d) e = Walk.path_join p (Walk.path_join d e).
Proof.
  intros Hd. rewrite (path_join_cons (Walk.path_join p d)) by by apply path_join_nonempty.
  rewrite (path_join_cons d) by done.
  unfold Walk.path_join. destruct (decide (p = "")); [done|].
  by rewrite append_assoc.
Qed.

Lemma length_path_join (p d : string) :
  d ≠ "" → (String.length p < String.length (Walk.path_join p d))%nat.
Proof.
  intros Hd. unfold Walk.path_join. destruct (decide (p = "")) as [->|_].
  - destruct d; [done|]. cbn. lia.
  - rewrite length_append. cbn [String.length]. lia.
Qed.

Lemma length_le_longest (m : gmap string node) (k : string) :
  is_Some (m !! k) → (String.length k ≤ longest m)%nat.
Proof.
  intros [v Hv]. unfold longest. apply max_list_elem_of_le.
  apply list_elem_of_fmap. exists k. split; [done|].
  apply list_elem_of_fmap. exists (k, v). split; [done|]. by apply elem_of_map_to_list.
Qed.

Lemma immediate_files_good (m : gmap string node) (p : string) :
  Forall (good_file m p) (Walk.immediate_files m p).
Proof.
  apply Forall_forall. intros f [Hn Hf]%elem_of_immediate_files.
  split; [by apply is_name_nonempty|done].
Qed.

Lemma immediate_dirs_good (m : gmap string node) (p : string) :
  Forall (good_dir m p) (Walk.immediate_dirs m p).
Proof.
  apply Forall_forall. intros f [Hn Hf]%elem_of_immediate_dirs.
  split; [by apply is_name_nonempty|done].
Qed.

Lemma good_file_join (m : gmap string node) (p d f : string) :
  d ≠ "" → good_file m (Walk.path_join p d) f → good_file m p (Walk.path_join d f).
Proof.
  intros Hd [Hf Hfile]. split; [by apply path_join_nonempty|].
  by rewrite <- path_join_assoc.
Qed.

Lemma good_dir_join (m : gmap string node) (p d e : string) :
  d ≠ "" → good_dir m (Walk.path_join p d) e → good_dir m p (Walk.path_join d e).
Proof.
  intros Hd [He Hdir]. split; [by apply path_join_nonempty|].
  by rewrite <- path_join_assoc.
Qed.

Lemma walks_good (m : gmap string node) (p : string) (i : nat) (files dirs : list string)
    (r : list string * list string) :
  walks m p i files dirs r →
  Forall (good_file m p) files → Forall (good_dir m p) dirs →
  Forall (good_file m p) r.1 ∧ Forall (good_dir m p) r.2.
Proof.
  induction 1 as [p i files dirs Hi|p i files dirs d nf nd r Hi _ IH1 _ IH2];
    intros Hfiles Hdirs; [done|].
  assert (Hd : good_dir m p d).
  { rewrite Forall_forall in Hdirs. apply Hdirs. by eapply list_elem_of_lookup_2. }
  destruct (IH1 (immediate_files_good _ _) (immediate_dirs_good _ _)) as [Hnf Hnd].
  cbn [fst snd] in Hnf, Hnd. apply IH2.
  - apply Forall_app. split; [done|]. apply Forall_fmap.
    eapply Forall_impl; [exact Hnf|]. intros f Hf. by apply good_file_join; [apply Hd|].
  - apply Forall_app. split; [done|]. apply Forall_fmap.
    eapply Forall_impl; [exact Hnd|]. intros e He. by apply good_dir_join; [apply Hd|].
Qed.

Lemma lists_good (m : gmap string node) (p : string) (r : list string * list string) :
  lists m p r → Forall (good_file m p) r.1 ∧ Forall (good_dir m p) r.2.
Proof.
  intros H. eapply walks_good; [exact H|apply immediate_files_good|apply immediate_dirs_good].
Qed.

(** *** The loop ends *)

Lemma one_pass (m : gmap string node) (p : string) (k : nat) (pend : list string) :
  (∀ d, good_dir m p d → ∃ r, lists m (Walk.path_join p d) r) →
  ∀ pre acc files,
    Forall (pending m p (S k)) pend → Forall (pending m p k) acc →
    ∃ files' acc',
      Forall (pending m p k) acc'
      ∧ ∀ r, walks m p (length (pre ++ pend)) files' (pre ++ pend ++ acc') r →
             walks m p (length pre) files (pre ++ pend ++ acc) r.
Proof.
  intros sub_lists. induction pend as [|d pend IH]; intros pre acc files Hpend Hacc.
  - exists files, acc. split; [done|]. intros r. by rewrite app_nil_r.
  - apply Forall_cons in Hpend as [[Hd Hlv] Hpend].
    destruct (sub_lists d Hd) as [[nf nd] Hlists].
    destruct (lists_good _ _ _ Hlists) as [_ Hnd]. cbn [snd] in Hnd.
    destruct (IH (pre ++ [d]) (acc ++ (Walk.path_join d <$> nd))
                (files ++ (Walk.path_join d <$> nf)) Hpend) as (files' & acc' & Hacc' & Hwalk).
    { apply Forall_app. split; [done|]. apply Forall_fmap.
      eapply Forall_impl; [exact Hnd|]. intros e He. cbv beta.
      pose proof (good_dir_join _ _ _ _ (proj1 Hd) He) as Hde. split; [done|].
      destruct He as [He Hdir]. rewrite <- path_join_assoc by apply Hd.
      pose proof (length_path_join (Walk.path_join p d) e He).
      pose proof (length_le_longest m _ (mk_is_Some _ _ Hdir)). lia. }
    exists files', acc'. split; [done|]. intros r Hr.
    eapply walks_step; [|exact Hlists|].
    + by rewrite lookup_app_r, Nat.sub_diag.
    + replace (S (length pre)) with (length (pre ++ [d])) by (rewrite length_app; cbn; lia).
      replace ((pre ++ d :: pend ++ acc) ++ (Walk.path_join d <$> nd))
        with ((pre ++ [d]) ++ pend ++ acc ++ (Walk.path_join d <$> nd))
        by (rewrite <- !app_assoc; cbn [app]; by rewrite <- ?app_assoc).
      apply Hwalk. rewrite <- !app_assoc. exact Hr.
Qed.

Lemma loop_ends (m : gmap string node) (p : string) (k : nat) :
  (∀ d, good_dir m p d → ∃ r, lists m (Walk.path_join p d) r) →
  ∀ pre pend files,
    Forall (pending m p k) pend → ∃ r, walks m p (length pre) files (pre ++ pend) r.
Proof.
  intros sub_lists. induction k as [|k IH]; intros pre pend files Hpend.
  - destruct pend as [|d pend]; [|apply Forall_cons in Hpend as [[_ ?] _]; lia].
    eexists. apply walks_done. rewrite app_nil_r. by apply lookup_ge_None.
  - destruct (one_pass m p k pend sub_lists pre [] files Hpend (Forall_nil_2 _))
      as (files' & acc' & Hacc' & Hwalk).
    destruct (IH (pre ++ pend) acc' files' Hacc') as [r Hr].
    exists r. specialize (Hwalk r). rewrite app_nil_r in Hwalk. apply Hwalk.
    by rewrite <- app_assoc in Hr.
Qed.

Lemma lists_exists (m : gmap string node) (n : nat) :
  ∀ p, (longest m - String.length p < n)%nat → ∃ r, lists m p r.
Proof.
  induction n as [|n IH]; intros p Hp; [lia|].
  assert (Hlv : ∀ d, good_dir m p d →
            (longest m - String.length (Walk.path_join p d) < n)%nat).
  { intros d [Hd Hdir]. pose proof (length_path_join p d Hd).
    pose proof (length_le_longest m _ (mk_is_Some _ _ Hdir)). lia. }
  apply (loop_ends m p n (λ d Hd, IH _ (Hlv d Hd)) [] (Walk.immediate_dirs m p)).
  eapply Forall_impl; [apply immediate_dirs_good|]. intros d Hd. split; [done|by apply Hlv].
Qed.

(** *** What the loop collects *)

Lemma walks_contribs (m : gmap string node) (p : string) (i : nat) (files dirs : list string)
    (r : list string * list string) :
  walks m p i files dirs r →
  dirs `prefix_of` r.2
  ∧ ∃ contribs : list (list string),
      r.1 = files ++ mjoin contribs
      ∧ length contribs = (length r.2 - i)%nat
      ∧ ∀ j c, contribs !! j = Some c →
          ∃ d nf nd, r.2 !! (i + j)%nat = Some d
                     ∧ lists m (Walk.path_join p d) (nf, nd)
                     ∧ c = Walk.path_join d <$> nf
                     ∧ ∀ e, e ∈ nd → Walk.path_join d e ∈ r.2.
Proof.
  induction 1 as [p i files dirs Hi|p i files dirs d nf nd r Hi Hsub _ _ IH2].
  - split; [done|]. exists []. cbn [fst snd]. split; [by rewrite app_nil_r|].
    apply lookup_ge_None in Hi. split; [cbn; lia|]. intros j c Hj. done.
  - destruct IH2 as (Hpre & contribs & HF & Hlen & Hc).
    assert (Hpre' : dirs `prefix_of` r.2) by (by eapply prefix_app_l).
    pose proof (prefix_lookup_Some _ _ _ _ Hi Hpre') as HDi.
    split; [done|]. exists ((Walk.path_join d <$> nf) :: contribs).
    split; [rewrite HF, <- app_assoc; reflexivity|]. split.
    { apply lookup_lt_Some in HDi. cbn [length]. lia. }
    intros [|j] c Hj.
    + injection Hj as <-. exists d, nf, nd. rewrite Nat.add_0_r.
      split; [done|]. split; [done|]. split; [done|]. intros e He.
      destruct Hpre as [k ->]. apply elem_of_app. left. apply elem_of_app. right.
      by apply list_elem_of_fmap_2.
    + cbn in Hj. destruct (Hc j c Hj) as (d' & nf' & nd' & HD & Hl & -> & Hnd).
      exists d', nf', nd'. rewrite Nat.add_succ_r. done.
Qed.

Lemma lists_processed (m : gmap string node) (p : string) (F D : list string) (d : string) :
  lists m p (F, D) → d ∈ D →
  ∃ nf nd, lists m (Walk.path_join p d) (nf, nd)
           ∧ (∀ f, f ∈ nf → Walk.path_join d f ∈ F)
           ∧ (∀ e, e ∈ nd → Walk.path_join d e ∈ D).
Proof.
  intros Hl Hd. apply walks_contribs in Hl as (_ & contribs & HF & Hlen & Hc).
  cbn [fst snd] in *. apply list_elem_of_lookup in Hd as [j Hj].
  destruct (lookup_lt_is_Some_2 contribs j) as [c Hcj].
  { apply lookup_lt_Some in Hj. lia. }
  destruct (Hc j c Hcj) as (d' & nf & nd & HD & Hlists & -> & Hnd).
  cbn in HD. rewrite Hj in HD. injection HD as <-.
  exists nf, nd. split; [done|]. split; [|done]. intros f Hf. rewrite HF.
  apply elem_of_app. right. apply list_elem_of_join.
  exists (Walk.path_join d <$> nf). split; [by apply list_elem_of_fmap_2|].
  by eapply list_elem_of_lookup_2.
Qed.

Lemma lists_immediate (m : gmap string node) (p : string) (F D : list string) :
  lists m p (F, D) → Walk.immediate_files m p ⊆ F ∧ Walk.immediate_dirs m p ⊆ D.
Proof.
  intros Hl. apply walks_contribs in Hl as ([k Hk] & contribs & HF & _).
  cbn [fst snd] in *. split.
  - intros f Hf. rewrite HF. apply elem_of_app. by left.
  - intros d Hd. rewrite Hk. apply elem_of_app. by left.
Qed.

Lemma lists_complete (m : gmap string node) (rel : string) :
  tree m → clean rel →
  ∀ p F D, lists m p (F, D) →
    (os.isfile m (Walk.path_join p rel) = true → rel ∈ F)
    ∧ (m !! Walk.path_join p rel = Some Dir → rel ∈ D).
Proof.
  intros Htree. induction 1 as [n Hn|n rest Hn Hrest IH]; intros p F D Hl.
  - destruct (lists_immediate _ _ _ _ Hl) as [HF HD]. split.
    + intros Hf. apply HF. by apply elem_of_immediate_files.
    + intros Hd. apply HD. by apply elem_of_immediate_dirs.
  - pose proof (is_name_nonempty _ Hn) as Hne.
    rewrite <- (path_join_cons n rest Hne), <- (path_join_assoc p n rest Hne).
    assert (Hparent : is_Some (m !! Walk.path_join (Walk.path_join p n) rest) →
              ∃ nf nd, lists m (Walk.path_join p n) (nf, nd)
                       ∧ (∀ f, f ∈ nf → Walk.path_join n f ∈ F)
                       ∧ (∀ e, e ∈ nd → Walk.path_join n e ∈ D)).
    { intros Hsome. apply (lists_processed m p F D n Hl).
      apply (lists_immediate _ _ _ _ Hl). apply elem_of_immediate_dirs. split; [done|].
      apply (Htree _ _ Hsome). apply elem_of_parents. exists rest.
      apply path_join_cons. by apply path_join_nonempty. }
    split.
    + intros Hf. destruct Hparent as (nf & nd & Hsub & HF & _).
      { unfold os.isfile in Hf. destruct (m !! _); [eauto|done]. }
      apply HF. by apply (IH _ _ _ Hsub).
    + intros Hd. destruct Hparent as (nf & nd & Hsub & _ & HD); [eauto|].
      apply HD. by apply (IH _ _ _ Hsub).
Qed.

Lemma path_join_root (k : string) : Walk.path_join "" k = k.
Proof. reflexivity. Qed.

(** X14: on every destination the recursive listing returns once it has
    fuel enough, and with more fuel it returns the same; each path it
    lists as a file is a regular file of the destination and each path it
    lists as a directory is a directory. *)
Theorem recursive_listing_returns (m : gmap string node) :
  ∃ n F D,
    (∀ fuel, (n ≤ fuel)%nat → Walk.get_dst_all_files_and_dirs fuel m "" = Some (F, D))
    ∧ (∀ f, f ∈ F → os.isfile m f = true)
    ∧ (∀ d, d ∈ D → m !! d = Some Dir).
Proof.
  destruct (lists_exists m (S (longest m)) "") as [[F D] Hl]; [cbn; lia|].
  destruct (lists_fuel _ _ _ Hl) as [n Hn]. exists n, F, D. split; [done|].
  destruct (lists_good _ _ _ Hl) as [HF HD]. cbn [fst snd] in *.
  rewrite Forall_forall in HF, HD. split.
  - intros f Hf. by apply HF.
  - intros d Hd. by apply HD.
Qed.

(** X15: when the destination is a directory tree whose paths have no
    empty part, whatever the recursive listing returns lists, taken as
    sets, exactly the regular files and exactly the directories of the
    destination: the sets that the comparison is computed from. *)
Theorem recursive_listing_complete (m : gmap string node) (fuel : nat) (F D : list string) :
  tree m → (∀ k, is_Some (m !! k) → clean k) →
  Walk.get_dst_all_files_and_dirs fuel m "" = Some (F, D) →
  (∀ f, f ∈ F ↔ os.isfile m f = true)
  ∧ (∀ d, d ∈ D ↔ m !! d = Some Dir)
  ∧ (list_to_set F : gset string) = local_files (get_dst_all_files_and_dirs m)
  ∧ (list_to_set D : gset string) = local_dirs (get_dst_all_files_and_dirs m).
Proof.
  intros Htree Hclean Hl%get_dst_lists.
  destruct (lists_good _ _ _ Hl) as [HF HD]. cbn [fst snd] in *.
  rewrite Forall_forall in HF, HD.
  assert (HFiff : ∀ f, f ∈ F ↔ os.isfile m f = true).
  { intros f. split; [intros Hf; by apply HF|]. intros Hf.
    apply (lists_complete m f Htree) with (p := "") (D := D); [|done..].
    apply Hclean. unfold os.isfile in Hf. destruct (m !! f); [eauto|done]. }
  assert (HDiff : ∀ d, d ∈ D ↔ m !! d = Some Dir).
  { intros d. split; [intros Hd; by apply HD|]. intros Hd.
    apply (lists_complete m d Htree) with (p := "") (F := F); [|done..].
    apply Hclean. eauto. }
  split; [done|]. split; [done|]. split.
  - apply set_eq. intros f. rewrite elem_of_list_to_set, local_files_listing. apply HFiff.
  - apply set_eq. intros d. rewrite elem_of_list_to_set, local_dirs_listing. apply HDiff.
Qed.

Lemma mjoin_repeats {A} (ls : list (list A)) (j1 j2 : nat) (c1 c2 : list A) (x : A) :
  (j1 < j2)%nat → ls !! j1 = Some c1 → ls !! j2 = Some c2 →
  x ∈ c1 → x ∈ c2 → ¬ NoDup (mjoin ls).
Proof.
  intros Hlt H1 H2 Hx1 Hx2. rewrite <- (take_drop_middle _ _ _ H2), join_app.
  intros (_ & Hdisj & _)%NoDup_app. apply (Hdisj x).
  - apply list_elem_of_join. exists c1. split; [done|].
    apply (list_elem_of_lookup_2 _ j1). by rewrite lookup_take_lt.
  - cbn. apply elem_of_app. by left.
Qed.

(** X16: in a destination that is a directory tree, a file that lies two
    directories deep or deeper is listed more than once by the recursive
    listing: the loop runs over [dirs] while it extends [dirs], so a
    directory inside a directory is listed once as part of its parent and
    once more on its own. *)
Theorem recursive_listing_repeats (m : gmap string node) (fuel : nat) (F D : list string)
    (a b rest : string) :
  tree m →
  Walk.is_name a = true → Walk.is_name b = true → clean rest →
  os.isfile m (a +:+ String "/" (b +:+ String "/" rest)) = true →
  Walk.get_dst_all_files_and_dirs fuel m "" = Some (F, D) →
  ¬ NoDup F.
Proof.
  intros Htree Ha Hb Hrest Hfile Hl%get_dst_lists.
  pose proof (is_name_nonempty _ Ha) as Hane. pose proof (is_name_nonempty _ Hb) as Hbne.
  set (ab := Walk.path_join a b).
  assert (Hkey : a +:+ String "/" (b +:+ String "/" rest)
                 = Walk.path_join ab rest).
  { unfold ab. rewrite path_join_assoc by done. by rewrite !path_join_cons. }
  rewrite Hkey in Hfile.
  assert (Hsome : is_Some (m !! Walk.path_join ab rest)).
  { unfold os.isfile in Hfile. destruct (m !! _); [eauto|done]. }
  assert (Hab : m !! ab = Some Dir).
  { apply (Htree _ _ Hsome). apply elem_of_parents. exists rest.
    apply path_join_cons. by apply path_join_nonempty. }
  assert (Hadir : m !! a = Some Dir).
  { apply (Htree ab); [eauto|]. apply elem_of_parents. exists b. by apply path_join_cons. }
  assert (HaD : a ∈ D).
  { apply (lists_immediate _ _ _ _ Hl). by apply elem_of_immediate_dirs. }
  assert (HabD : ab ∈ D).
  { destruct (lists_processed _ _ _ _ _ Hl HaD) as (nf & nd & Hla & _ & Hnd).
    apply Hnd. apply (lists_immediate _ _ _ _ Hla). by apply elem_of_immediate_dirs. }
  apply walks_contribs in Hl as (_ & contribs & HF & Hlen & Hc). cbn [fst snd] in *.
  apply list_elem_of_lookup in HaD as [ja Hja]. apply list_elem_of_lookup in HabD as [jb Hjb].
  destruct (lookup_lt_is_Some_2 contribs ja) as [ca Hca];
    [apply lookup_lt_Some in Hja; lia|].
  destruct (lookup_lt_is_Some_2 contribs jb) as [cb Hcb];
    [apply lookup_lt_Some in Hjb; lia|].
  assert (Hxa : Walk.path_join ab rest ∈ ca).
  { destruct (Hc ja ca Hca) as (d & nf & nd & HD & Hld & -> & _).
    cbn in HD. rewrite Hja in HD. injection HD as <-. rewrite path_join_root in Hld.
    unfold ab. rewrite path_join_assoc by done. apply list_elem_of_fmap_2.
    apply (lists_complete m (Walk.path_join b rest) Htree) with (p := a) (D := nd); [|done|].
    - rewrite path_join_cons by done. by constructor.
    - by rewrite <- path_join_assoc. }
  assert (Hxb : Walk.path_join ab rest ∈ cb).
  { destruct (Hc jb cb Hcb) as (d & nf & nd & HD & Hld & -> & _).
    cbn in HD. rewrite Hjb in HD. injection HD as <-. rewrite path_join_root in Hld.
    apply list_elem_of_fmap_2.
    by apply (lists_complete m rest Htree Hrest) with (p := ab) (D := nd). }
  assert (Hne : ja ≠ jb).
  { intros ->. rewrite Hja in Hjb. injection Hjb as Heq. unfold ab in Heq.
    rewrite path_join_cons in Heq by done.
    apply (f_equal String.length) in Heq. rewrite length_append in Heq. cbn in Heq. lia. }
  rewrite HF. intros (_ & _ & Hnd)%NoDup_app. revert Hnd.
  destruct (decide (ja < jb)%nat).
  - by eapply (mjoin_repeats contribs ja jb).
  - eapply (mjoin_repeats contribs jb ja); [lia|done..].
Qed.

Lemma nested_keys (k : string) :
  is_Some (nested !! k) → k ∈ ["a/b/x"; "a/b"; "a"; "t"].
Proof.
  intros [v Hv]. apply elem_of_map_to_list in Hv.
  assert (Hkeys : map_to_list nested
                  = [("a/b/x", File 1 "D1"); ("a/b", Dir); ("a", Dir); ("t", File 2 "D2")])
    by (vm_compute; reflexivity).
  rewrite Hkeys in Hv. clear Hkeys.
  apply elem_of_cons in Hv as [[= -> _]|Hv]; [apply list_elem_of_here|].
  apply elem_of_cons in Hv as [[= -> _]|Hv]; [apply list_elem_of_further, list_elem_of_here|].
  apply elem_of_cons in Hv as [[= -> _]|Hv];
    [do 2 apply list_elem_of_further; apply list_elem_of_here|].
  apply elem_of_cons in Hv as [[= -> _]|Hv];
    [do 3 apply list_elem_of_further; apply list_elem_of_here|].
  by apply elem_of_nil in Hv.
Qed.

Lemma nested_tree : tree nested.
Proof.
  intros k q Hk%nested_keys Hq.
  apply elem_of_cons in Hk as [->|Hk].
  { change (os.parents "a/b/x") with ["a"; "a/b"] in Hq.
    apply elem_of_cons in Hq as [->|Hq]; [vm_compute; reflexivity|].
    apply list_elem_of_singleton in Hq as ->. vm_compute. reflexivity. }
  apply elem_of_cons in Hk as [->|Hk].
  { change (os.parents "a/b") with ["a"] in Hq.
    apply list_elem_of_singleton in Hq as ->. vm_compute. reflexivity. }
  apply elem_of_cons in Hk as [->|Hk].
  { change (os.parents "a") with (@nil string) in Hq. by apply elem_of_nil in Hq. }
  apply list_elem_of_singleton in Hk as ->.
  change (os.parents "t") with (@nil string) in Hq. by apply elem_of_nil in Hq.
Qed.

Lemma nested_clean (k : string) : is_Some (nested !! k) → clean k.
Proof.
  intros Hk%nested_keys.
  apply elem_of_cons in Hk as [->|Hk].
  { apply (clean_cons "a" "b/x"); [done|]. apply (clean_cons "b" "x"); [done|].
    by apply clean_name. }
  apply elem_of_cons in Hk as [->|Hk].
  { apply (clean_cons "a" "b"); [done|]. by apply clean_name. }
  apply elem_of_cons in Hk as [->|Hk]; [by apply clean_name|].
  apply list_elem_of_singleton in Hk as ->. by apply clean_name.
Qed.

Lemma recursive_listing_complete_witness :
  (∀ f, f ∈ ["t"; "a/b/x"; "a/b/x"] ↔ os.isfile nested f = true)
  ∧ (list_to_set ["a"; "a/b"] : gset string) = local_dirs (get_dst_all_files_and_dirs nested).
Proof.
  assert (Hrun : Walk.get_dst_all_files_and_dirs 4 nested ""
                 = Some (["t"; "a/b/x"; "a/b/x"], ["a"; "a/b"]))
    by (vm_compute; reflexivity).
  destruct (recursive_listing_complete nested 4 _ _ nested_tree nested_clean Hrun)
    as (HF & _ & _ & HD).
  split; [exact HF|exact HD].
Defined.

Lemma recursive_listing_repeats_witness :
  Walk.get_dst_all_files_and_dirs 4 nested "" = Some (["t"; "a/b/x"; "a/b/x"], ["a"; "a/b"])
  ∧ ¬ NoDup ["t"; "a/b/x"; "a/b/x"].
Proof.
  assert (Hrun : Walk.get_dst_all_files_and_dirs 4 nested ""
                 = Some (["t"; "a/b/x"; "a/b/x"], ["a"; "a/b"]))
    by (vm_compute; reflexivity).
  split; [exact Hrun|].
  apply (recursive_listing_repeats nested 4 _ ["a"; "a/b"] "a" "b" "x" nested_tree
           eq_refl eq_refl (clean_name "x" eq_refl) eq_refl Hrun).
Defined.

(** ** Repair *)

Lemma verify_and_delete_yes (args : arguments) (dev : device) (existing_files bad : list string)
    (st st' : state) :
  yes args = true →
  verify_and_delete args dev existing_files st = (inr bad, st') →
  bad = filter (λ f, faultyb dev (fs st) f = true) existing_files
  ∧ (∀ f, f ∈ existing_files → os.isfile (fs st) f = true)
  ∧ (∀ p, fs st' !! p = if decide (p ∈ bad) then None else fs st !! p)
  ∧ stdin st' = stdin st
  ∧ (∀ f, AdbPull f ∈ out st' → AdbPull f ∈ out st).
Proof.
  intros Hyes Hrun.
  pose proof (nap_verify_and_delete args dev existing_files _ _ _ Hrun) as Hnap.
  unfold verify_and_delete in Hrun.
  rewrite (run_bind_ok _ _ _ _ _ (emit_run _ _)) in Hrun.
  apply run_bind_inv in Hrun as [(e & _ & ?)|(bad0 & st1 & Hv & Hrun)]; [done|].
  apply verify_returns in Hv as (-> & -> & Hfiles). cbn [fs] in *.
  rewrite (run_bind_ok _ _ _ _ _ (emit_run _ _)) in Hrun. rewrite Hyes in Hrun.
  set (bad0 := filter _ existing_files) in *.
  destruct (decide (bad0 ≠ [])) as [Hne|He].
  - rewrite (run_bind_ok _ _ _ _ _ (ret_run true _)) in Hrun.
    apply run_bind_inv in Hrun as [(e & _ & ?)|([] & st2 & Hd & Hrun)]; [done|].
    injection Hrun as <- <-.
    rewrite (run_bind_ok _ _ _ _ _ (emit_run _ _)) in Hd.
    destruct (proj2 (delete_files_spec bad0 _) _ Hd) as (Hin & _ & Hfs).
    cbn [fs stdin out] in Hin, Hfs. done.
  - apply dec_stable in He.
    rewrite (run_bind_ok _ _ _ _ _ (ret_run false _)) in Hrun.
    rewrite (run_bind_ok _ _ _ _ _ (ret_run () _)) in Hrun.
    injection Hrun as <- <-. cbn [fs stdin]. split; [done|]. split; [done|].
    split; [|done]. intros p. rewrite He. by rewrite decide_False by apply not_elem_of_nil.
Qed.

(** X17: with [--yes], once the verification block of [main] has
    returned, every file that was listed as existing is either a faulty
    file, which is returned and is deleted from the destination, or a
    local file that has the size and the digest the device reports. No
    other path of the destination is changed. *)
Theorem verification_leaves_no_faulty_file (args : arguments) (dev : device)
    (existing_files bad : list string) (st st' : state) :
  yes args = true →
  verify_and_delete args dev existing_files st = (inr bad, st') →
  (∀ f, f ∈ existing_files →
        (f ∈ bad ∧ faulty dev (fs st) f ∧ fs st' !! f = None)
        ∨ ((f ∉ bad)
           ∧ fs st' !! f = Some (File (dev_file_size dev f) (dev_sha1sum dev f))
           ∧ fs st !! f = Some (File (dev_file_size dev f) (dev_sha1sum dev f))))
  ∧ (∀ p, p ∉ existing_files → fs st' !! p = fs st !! p).
Proof.
  intros Hyes Hrun.
  destruct (verify_and_delete_yes _ _ _ _ _ _ Hyes Hrun) as (Hbad & Hfiles & Hfs & _).
  split.
  - intros f Hf. rewrite Hfs. destruct (decide (f ∈ bad)) as [Hin|Hnin].
    + left. split; [done|]. split; [|done]. rewrite Hbad in Hin.
      apply list_elem_of_filter in Hin as [Hin _]. by apply faultyb_spec.
    + right. split; [done|].
      assert (Hnf : faultyb dev (fs st) f ≠ true).
      { intros Hfb. apply Hnin. rewrite Hbad. by apply list_elem_of_filter. }
      specialize (Hfiles f Hf). unfold os.isfile in Hfiles. unfold faultyb in Hnf.
      destruct (fs st !! f) as [[size sha1|]|]; [|done..].
      apply not_true_is_false, orb_false_iff in Hnf as [H1 H2].
      apply bool_decide_eq_false, dec_stable in H1, H2. by subst.
  - intros p Hp. rewrite Hfs, decide_False; [done|]. rewrite Hbad.
    intros [_ ?]%list_elem_of_filter. done.
Qed.

Lemma verification_leaves_no_faulty_file_witness :
  (∀ f, f ∈ ["f2"] →
        (f ∈ ["f2"] ∧ faulty phone damaged f ∧ (∅ : gmap string node) !! f = None)
        ∨ ((f ∉ ["f2"])
           ∧ (∅ : gmap string node) !! f
             = Some (File (dev_file_size phone f) (dev_sha1sum phone f))
           ∧ damaged !! f = Some (File (dev_file_size phone f) (dev_sha1sum phone f))))
  ∧ (∀ p, p ∉ ["f2"] → (∅ : gmap string node) !! p = damaged !! p).
Proof.
  assert (Hrun : verify_and_delete (run_args false true false true) phone ["f2"]
                   (State damaged [] [])
                 = (inr ["f2"], State ∅ [] [PrintChecking; PrintFaulty ["f2"]; PrintDeleting]))
    by (vm_compute; reflexivity).
  exact (verification_leaves_no_faulty_file (run_args false true false true) phone
           ["f2"] ["f2"] _ _ eq_refl Hrun).
Defined.

Lemma pull_phase_faithful (args : arguments) (dev : device) (files existing : list string)
    (st st' : state) :
  faithful dev → override args = false → NoDup files →
  override_and_pull args dev files existing st = (inr (), st') →
  (∀ f, f ∈ files → fs st' !! f = Some (File (dev_file_size dev f) (dev_sha1sum dev f)))
  ∧ (∀ p, p ∉ files → fs st' !! p = fs st !! p)
  ∧ ∃ events, out st' = out st ++ events ++ [PrintResult (Z.of_nat (length files)) 0 []].
Proof.
  intros Hfaith Hov Hnd Hrun.
  rewrite (override_and_pull_no_override _ _ _ _ _ Hov) in Hrun.
  apply run_bind_inv in Hrun as [(e & _ & ?)|(failed & stP & Hpull & Hrun)]; [done|].
  rewrite emit_run in Hrun. injection Hrun as <-. cbn [fs out].
  destruct (decide (files ≠ [])) as [Hne|He].
  - apply run_bind_inv in Hpull as [(e & _ & ?)|(sizes & st2 & Hsz & Hpull)]; [done|].
    assert (st2 = st) as ->.
    { eapply readonly_run; [|exact Hsz]. apply readonly_dict_of. intros. apply readonly_ret. }
    rewrite (run_bind_ok _ _ _ _ _ (emit_run _ _)) in Hpull.
    pose proof (pull_loop_faithful _ _ _ Hfaith _ _ _ _ Hpull) as ->.
    destruct (pull_loop_post _ _ _ (faithful_local _ Hfaith) Hnd _ _ _ _ Hpull)
      as (newly & Hnil & _ & _ & Hkept & Hframe).
    symmetry in Hnil. apply app_eq_nil in Hnil as [_ ->].
    pose proof (pull_loop_events _ _ _ _ _ _ _ Hpull) as (_ & evs & Hevs & _).
    cbn [out fs] in Hevs, Hframe. split; [|split].
    + intros f Hf. apply Hkept; [done|]. by intros ?%elem_of_nil.
    + done.
    + exists ([PrintEstimate (map_fold (λ (_ : string) (v acc : Z), v + acc) 0 sizes)] ++ evs).
      rewrite Hevs, <- !app_assoc. cbn [length]. by rewrite Z.sub_0_r.
  - apply dec_stable in He. subst files. injection Hpull as <- <-.
    split; [by intros ? ?%elem_of_nil|]. split; [done|]. by exists [].
Qed.

(** X18: on a device whose [adb pull] copies each file as the device
    describes it, a run with [--auto --yes] that comes to its end leaves
    every file the device lists in the destination with the size and the
    digest the device reports, faulty copies included, and every
    directory the device lists as a directory; it reports no failure. *)
Theorem auto_run_repairs (args : arguments) (dev : device) (st st' : state) :
  faithful dev → (remote_files (dev_listing dev) ## remote_dirs (dev_listing dev)) →
  adb_path_is_file args = true → dst_path_is_dir args = true →
  dev_connected dev = true →
  dev_path_type dev ≠ "none" → dev_path_type dev ≠ "file" →
  verify_flag args = false → auto_flag args = true → yes args = true →
  override args = false →
  main args dev st = (inr (), st') →
  (∀ f, f ∈ remote_files (dev_listing dev) →
        fs st' !! f = Some (File (dev_file_size dev f) (dev_sha1sum dev f)))
  ∧ (∀ d, d ∈ remote_dirs (dev_listing dev) → fs st' !! d = Some Dir)
  ∧ ∃ events n, out st' = out st ++ events ++ [PrintResult n 0 []].
Proof.
  intros Hfaith Hdisj Hadb Hdst Hconn Hnone Hfile Hv Ha Hyes Hov Hrun.
  rewrite (main_passes _ _ _ Hadb Hdst Hconn Hnone) in Hrun.
  rewrite decide_False in Hrun by done.
  apply run_bind_inv in Hrun as [(e & _ & ?)|([[[mf ef] md] ed] & stL & Hlists & Hrun)];
    [done|].
  pose proof (readonly_run _ _ _ _ (readonly_get_missing_and_existing_files _) Hlists) as ->.
  unfold get_missing_and_existing_files, get_src_all_files_and_dirs in Hlists.
  rewrite (run_bind_ok _ _ _ _ _ (ret_run _ _)) in Hlists. rewrite run_bind in Hlists.
  unfold get_fs, lift in Hlists. cbv beta iota in Hlists. injection Hlists as Hcmp.
  rewrite (compare_listings_returns _ _ Hdisj) in Hcmp. injection Hcmp as <- <- <- <-.
  unfold main_from_lists in Hrun.
  rewrite (run_bind_ok _ _ _ _ _ (emit_run _ _)) in Hrun.
  rewrite (run_bind_ok _ _ _ _ _ (emit_run _ _)) in Hrun.
  cbn [fs stdin out] in Hrun. rewrite Hv, Ha in Hrun. cbn [orb] in Hrun.
  apply run_bind_inv in Hrun as [(e & _ & ?)|([] & stD & Hmk & Hrun)]; [done|].
  apply create_all_directories_run in Hmk as [(Hg & _ & HoutD) Hdirs].
  cbn [fs out] in Hg, HoutD. specialize (Hdirs eq_refl).
  apply run_bind_inv in Hrun as [(e & _ & ?)|(bad & stV & Hvd & Hrun)]; [done|].
  set (R := dev_listing dev) in *. set (L := get_dst_all_files_and_dirs (fs st)) in *.
  destruct (verify_and_delete_yes _ _ _ _ _ _ Hyes Hvd) as (Hbad & Hfiles & HfsV & _ & _).
  assert (HoutV : ∃ evs, out stV = out stD ++ evs).
  { clear -Hvd Hyes. unfold verify_and_delete in Hvd.
    rewrite (run_bind_ok _ _ _ _ _ (emit_run _ _)) in Hvd.
    apply run_bind_inv in Hvd as [(e & _ & ?)|(bad0 & st1 & Hv & Hvd)]; [done|].
    apply (readonly_run _ _ _ _ (readonly_verify _ _)) in Hv as ->.
    rewrite (run_bind_ok _ _ _ _ _ (emit_run _ _)) in Hvd. rewrite Hyes in Hvd.
    destruct (decide (bad0 ≠ [])).
    - rewrite (run_bind_ok _ _ _ _ _ (ret_run true _)) in Hvd.
      apply run_bind_inv in Hvd as [(e & _ & ?)|([] & st2 & Hd & Hvd)]; [done|].
      injection Hvd as _ <-. rewrite (run_bind_ok _ _ _ _ _ (emit_run _ _)) in Hd.
      apply delete_files_run in Hd as (_ & _ & ->). cbn [out].
      rewrite <- !app_assoc. eauto.
    - rewrite (run_bind_ok _ _ _ _ _ (ret_run false _)) in Hvd.
      rewrite (run_bind_ok _ _ _ _ _ (ret_run () _)) in Hvd.
      injection Hvd as _ <-. cbn [out]. rewrite <- !app_assoc. eauto. }
  assert (HbadR : ∀ f, f ∈ bad → f ∈ existingFiles R L).
  { intros f Hf. rewrite Hbad in Hf. apply list_elem_of_filter in Hf as [_ Hf].
    by apply elem_of_elements. }
  assert (Hnd : NoDup (elements (missingFiles R L) ++ bad)).
  { apply NoDup_app. split; [apply NoDup_elements|]. split.
    - intros f Hm%elem_of_elements Hb%HbadR. unfold missingFiles, existingFiles in *.
      apply elem_of_difference in Hm as [_ Hm]. by apply elem_of_intersection in Hb as [_ ?].
    - rewrite Hbad. apply NoDup_filter, NoDup_elements. }
  cbv beta iota in Hrun.
  destruct (pull_phase_faithful _ _ _ _ _ _ Hfaith Hov Hnd Hrun)
    as (Hpulled & Hframe & evsP & HoutP).
  split; [|split].
  - intros f Hf. destruct (decide (f ∈ elements (missingFiles R L) ++ bad)) as [Hin|Hnin];
      [by apply Hpulled|].
    rewrite (Hframe f Hnin). rewrite HfsV.
    rewrite decide_False by (intros ?; apply Hnin, elem_of_app; by right).
    assert (Hex : f ∈ elements (existingFiles R L)).
    { apply elem_of_elements. unfold existingFiles. apply elem_of_intersection.
      split; [done|]. destruct (decide (f ∈ local_files L)); [done|]. exfalso.
      apply Hnin, elem_of_app. left. apply elem_of_elements. unfold missingFiles.
      by apply elem_of_difference. }
    assert (Hnf : faultyb dev (fs stD) f ≠ true).
    { intros Hfb. apply Hnin, elem_of_app. right. rewrite Hbad.
      by apply list_elem_of_filter. }
    specialize (Hfiles f Hex). unfold os.isfile in Hfiles. unfold faultyb in Hnf.
    destruct (fs stD !! f) as [[size sha1|]|]; [|done..].
    apply not_true_is_false, orb_false_iff in Hnf as [H1 H2].
    apply bool_decide_eq_false, dec_stable in H1, H2. by subst.
  - intros d Hd.
    assert (HdR : ∀ f, f ∈ elements (missingFiles R L) ++ bad → f ∈ remote_files R).
    { intros f [Hm%elem_of_elements|Hb%HbadR]%elem_of_app.
      - unfold missingFiles in Hm. by apply elem_of_difference in Hm as [? _].
      - unfold existingFiles in Hb. by apply elem_of_intersection in Hb as [? _]. }
    rewrite Hframe by (intros Hin%HdR; exact (Hdisj d Hin Hd)).
    rewrite HfsV.
    rewrite decide_False
      by (intros Hin; apply (Hdisj d); [apply HdR, elem_of_app; by right|done]).
    destruct (decide (d ∈ elements (missingDirs R L))) as [Hm|Hm]; [by apply Hdirs|].
    eapply grows_dir; [exact Hg|]. apply local_dirs_listing. fold L.
    rewrite elem_of_elements in Hm. unfold missingDirs in Hm.
    rewrite elem_of_difference in Hm.
    destruct (decide (d ∈ local_dirs L)); [done|]. exfalso. by apply Hm.
  - destruct HoutV as [evsV HoutV].
    exists ([PrintMissingFiles (truncate_list (elements (missingFiles R L)));
             PrintMissingDirs (truncate_list (elements (missingDirs R L)))]
              ++ evsV ++ evsP).
    eexists. rewrite HoutP, HoutV, HoutD, <- !app_assoc. reflexivity.
Qed.

Lemma auto_run_repairs_witness :
  (∀ f, f ∈ remote_files (dev_listing mirror) →
        remote_tree !! f = Some (File (dev_file_size mirror f) (dev_sha1sum mirror f)))
  ∧ (∀ d, d ∈ remote_dirs (dev_listing mirror) → remote_tree !! d = Some Dir).
Proof.
  assert (Hrun : main (run_args false false true true) mirror (State damaged [] [])
                 = (inr (),
                    State remote_tree []
                          [PrintMissingFiles ["dirA/f1"]; PrintMissingDirs ["dirA"];
                           PrintChecking; PrintFaulty ["f2"]; PrintDeleting;
                           PrintEstimate 150; AdbPull "dirA/f1"; AdbPull "f2";
                           PrintResult 2 0 []]))
    by (vm_compute; reflexivity).
  destruct (auto_run_repairs (run_args false false true true) mirror _ _
              (λ _ _, eq_refl) mirror_disjoint eq_refl eq_refl eq_refl
              ltac:(vm_compute; discriminate) ltac:(vm_compute; discriminate)
              eq_refl eq_refl eq_refl eq_refl Hrun) as (Hf & Hd & _).
  split; [exact Hf|exact Hd].
Defined.

(** ** The announced size *)

Lemma dict_pure_lookup_other {V} (l : list string) (h : string → V) (d : gmap string V)
    (f : string) :
  f ∉ l → dict_pure l h d !! f = d !! f.
Proof.
  unfold dict_pure. revert d. induction l as [|x l IH]; intros d Hf; [done|].
  cbn [foldl]. rewrite IH by (intros ?; apply Hf; by right).
  apply lookup_insert_ne. intros ->. apply Hf. left.
Qed.

Lemma dict_pure_total (l : list string) (h : string → Z) :
  NoDup l →
  map_fold (λ (_ : string) (v acc : Z), v + acc) 0 (dict_pure l h ∅)
  = foldr Z.add 0 (h <$> l).
Proof.
  induction l as [|x l IH] using rev_ind; intros Hnd; [done|].
  apply NoDup_app in Hnd as (Hnd & Hx & _).
  unfold dict_pure. rewrite foldl_app. cbn [foldl]. fold (dict_pure l h ∅).
  rewrite map_fold_insert_L.
  - rewrite IH by done. rewrite fmap_app, foldr_app. cbn [fmap list_fmap foldr].
    generalize (h <$> l). intros zs. induction zs as [|z zs IHz]; cbn [foldr]; lia.
  - intros. lia.
  - rewrite dict_pure_lookup_other; [done|]. intros Hin. apply (Hx x Hin). left.
Qed.

(** X19: when the files to pull are all different, the size that a pull
    phase without [--override] announces before it pulls is the sum of
    the sizes the device reports for these files. *)
Theorem announced_size_is_sum (args : arguments) (dev : device)
    (missing_files existing_files : list string) (st st' : state) :
  override args = false → NoDup missing_files → missing_files ≠ [] →
  override_and_pull args dev missing_files existing_files st = (inr (), st') →
  ∃ events,
    out st' = out st ++ PrintEstimate (foldr Z.add 0 (dev_file_size dev <$> missing_files))
                        :: events.
Proof.
  intros Hov Hnd Hne Hrun.
  rewrite (override_and_pull_no_override _ _ _ _ _ Hov) in Hrun.
  apply run_bind_inv in Hrun as [(e & _ & ?)|(failed & stP & Hpull & Hrun)]; [done|].
  rewrite emit_run in Hrun. injection Hrun as <-. cbn [out].
  rewrite decide_True in Hpull by done.
  rewrite (run_bind_ok _ _ _ _ _
             (dict_of_ok missing_files (get_src_file_size dev) (dev_file_size dev) ∅ st
                (λ _ _, eq_refl))) in Hpull.
  rewrite (run_bind_ok _ _ _ _ _ (emit_run _ _)) in Hpull.
  rewrite (dict_pure_total _ _ Hnd) in Hpull.
  pose proof (pull_loop_events _ _ _ _ _ _ _ Hpull) as (_ & evs & Hevs & _).
  cbn [out] in Hevs. eexists. rewrite Hevs, <- !app_assoc. reflexivity.
Qed.

Lemma announced_size_is_sum_witness :
  ∃ events,
    [PrintEstimate 150; AdbPull "dirA/f1"; AdbPull "f2"; PrintResult 2 0 []]
    = [] ++ PrintEstimate (foldr Z.add 0 (dev_file_size phone <$> ["dirA/f1"; "f2"]))
            :: events.
Proof.
  assert (Hrun : override_and_pull (run_args false false false false) phone
                   ["dirA/f1"; "f2"] [] (State {[ "dirA" := Dir ]} [] [])
                 = (inr (), State remote_tree []
                                  [PrintEstimate 150; AdbPull "dirA/f1"; AdbPull "f2";
                                   PrintResult 2 0 []]))
    by (vm_compute; reflexivity).
  refine (announced_size_is_sum (run_args false false false false) phone
            ["dirA/f1"; "f2"] [] _ _ eq_refl _ _ Hrun).
  - apply NoDup_cons. split; [by intros ?%list_elem_of_singleton|apply NoDup_singleton].
  - done.
Defined.

(** ** A command that fails *)

Lemma pull_loop_raises (dev : device) (sizes : gmap string Z) (f : string)
    (rest failed : list string) (st : state) :
  dev_pull_status dev f (fs st) ≠ 0 →
  pull_loop dev sizes (f :: rest) failed st
  = (inl (CalledProcessError (dev_pull_status dev f (fs st))),
     State (dev_pull dev f (fs st)) (stdin st) (out st ++ [AdbPull f])).
Proof.
  intros Hexit. rewrite pull_loop_cons, run_bind, pull_file_run. cbv zeta.
  by rewrite decide_True.
Qed.

(** X20: when the [adb pull] command of a file exits with a status other
    than 0, [pull_file] does not classify the transfer: it raises
    [CalledProcessError] with that status. The loop of [main] stops at
    that file: it pulls no file after it and does not return the failed
    files collected so far, and what the command wrote stays in the
    destination. When this happens at the first file to pull, the pull
    phase ends with the exception after the estimate and the one
    [adb pull], without printing its result. *)
Theorem failed_command_stops_run (args : arguments) (dev : device) (sizes : gmap string Z)
    (f : string) (rest failed existing_files : list string) (st : state) :
  dev_pull_status dev f (fs st) ≠ 0 →
  let e := CalledProcessError (dev_pull_status dev f (fs st)) in
  let stopped (events : list event) :=
    State (dev_pull dev f (fs st)) (stdin st) (out st ++ events ++ [AdbPull f]) in
  pull_file dev f st = (inl e, stopped [])
  ∧ pull_loop dev sizes (f :: rest) failed st = (inl e, stopped [])
  ∧ (override args = false → NoDup (f :: rest) →
     override_and_pull args dev (f :: rest) existing_files st
     = (inl e, stopped [PrintEstimate (foldr Z.add 0 (dev_file_size dev <$> f :: rest))])).
Proof.
  intros Hexit e stopped. split; [|split].
  - rewrite pull_file_run. cbv zeta. by rewrite decide_True.
  - by apply pull_loop_raises.
  - intros Hov Hnd. rewrite (override_and_pull_no_override _ _ _ _ _ Hov).
    rewrite decide_True by done. rewrite run_bind.
    rewrite (run_bind_ok _ _ _ _ _
               (dict_of_ok (f :: rest) (get_src_file_size dev) (dev_file_size dev) ∅ st
                  (λ _ _, eq_refl))).
    rewrite (run_bind_ok _ _ _ _ _ (emit_run _ _)).
    rewrite (dict_pure_total _ _ Hnd).
    rewrite pull_loop_raises by done.
    unfold stopped. cbn [fs stdin out app]. by rewrite <- app_assoc.
Qed.

Lemma failed_command_stops_run_witness :
  override_and_pull (run_args false false false false) phone_unreadable ["a"] []
    (State ∅ [] [PrintMissingFiles ["a"]; PrintMissingDirs []])
  = (inl (CalledProcessError 1),
     State ∅ [] [PrintMissingFiles ["a"]; PrintMissingDirs []; PrintEstimate 10; AdbPull "a"]).
Proof.
  exact (proj2 (proj2 (failed_command_stops_run (run_args false false false false)
                         phone_unreadable ∅ "a" [] [] []
                         (State ∅ [] [PrintMissingFiles ["a"]; PrintMissingDirs []])
                         ltac:(vm_compute; discriminate)))
               eq_refl (NoDup_singleton "a")).
Defined.
